(** * InfraProof: the execution proof protocol

    A shallow embedding of the InfraProof sources, and the properties
    that its specification states of them.

    - [Registry]: the ledger contract ExecutionRegistry.sol;
    - [Client]: the view [tasks(taskId)] and the statuses of a task;
    - [Ethers], [JSON], [FS]: what the backend uses of ethers, of
      [JSON.stringify] and of fs-extra;
    - [Hash]: backend/utils/hash.js;
    - [Benchmark]: [cpuTest] and [memoryTest] of the benchmark service;
    - [Artifacts]: backend/services/artifacts.js;
    - [Wrapper]: backend/contracts/executionRegistry.js;
    - [Route]: the route POST /tasks/execute/:taskId;
    - [Tasks]: the router, POST /tasks/create and GET /tasks/:taskId;
    - [Suite]: [diskTest] of the benchmark service.

    Conventions.  A [uint256] and an [address] are integers of [Z] with
    their range written out; a [bytes32] is a list of bytes; a Solidity
    [mapping] is a finite map read with the zero value as default.  A
    call that can throw returns an [option], [None] when it throws.
    Strings hold ASCII text, a character for each code unit.  What a
    function gets from outside (the clock, the order of a directory
    listing, the storage network, the digest function) is a parameter
    of its embedding. *)

From Stdlib Require Import ZArith Znumtheory Lia Bool.
From Stdlib Require Import Strings.String Strings.Ascii Strings.Byte.
From stdpp Require Import base tactics option list gmap strings sorting pretty.

Open Scope Z_scope.

#[global] Instance byte_eq_dec : EqDecision byte := Byte.byte_eq_dec.

(* ================================================================= *)
(** ** The ledger contract: ExecutionRegistry.sol *)

Module Registry.

Definition address := Z.
Definition bytes32 := list byte.

(** [address(0)] and [bytes32(0)]. *)
Definition address0 : address := 0.
Definition zero32 : bytes32 := replicate 32 x00%byte.

Definition MAX_UINT256 : Z := 2 ^ 256 - 1.
Definition MAX_ADDRESS : Z := 2 ^ 160 - 1.

Record Task := mkTask {
  requester : address;
  specHash : bytes32;
  createdAt : Z
}.

Record Receipt := mkReceipt {
  operator : address;
  artifactHash : bytes32;
  resultHash : bytes32;
  completedAt : Z
}.

(** Contract storage: [nextTaskId], [tasks], [receipts]. *)
Record State := mkState {
  nextTaskId : Z;
  tasks : gmap Z Task;
  receipts : gmap Z Receipt
}.

(** The state of a freshly deployed contract. *)
Definition init : State := mkState 0 ∅ ∅.

Definition zeroTask : Task := mkTask address0 zero32 0.
Definition zeroReceipt : Receipt := mkReceipt address0 zero32 zero32 0.

(** Reading a mapping: an absent key holds the zero value.  These are
    also the public views [tasks(taskId)] and [receipts(taskId)]. *)
Definition tasks_at (st : State) (taskId : Z) : Task :=
  default zeroTask (tasks st !! taskId).
Definition receipts_at (st : State) (taskId : Z) : Receipt :=
  default zeroReceipt (receipts st !! taskId).

Inductive Event :=
| TaskCreated (taskId : Z) (requester : address) (specHash : bytes32)
| ReceiptSubmitted (taskId : Z) (operator : address)
    (artifactHash resultHash : bytes32).

(** [msg.sender] and [block.timestamp] of a call. *)
Record Env := mkEnv { sender : address; timestamp : Z }.

(** A call fails by a [require] with its message, or by the checked
    arithmetic of Solidity 0.8 (panic code 0x11 on overflow). *)
Inductive Failure :=
| Revert (reason : string)
| Panic (code : Z).

Inductive Outcome (A : Type) :=
| Success (st' : State) (ret : A) (logs : list Event)
| Failed (f : Failure).
Arguments Success {A} st' ret logs.
Arguments Failed {A} f.

Definition createTask (st : State) (env : Env) (specHash : bytes32)
  : Outcome Z :=
  if decide (specHash = zero32) then
    Failed (Revert "Spec hash cannot be zero")
  else if decide (nextTaskId st = MAX_UINT256) then
    (* uint256 taskId = nextTaskId++; *)
    Failed (Panic 17)
  else
    let taskId := nextTaskId st in
    Success
      (mkState (taskId + 1)
         (<[taskId := mkTask (sender env) specHash (timestamp env)]>
            (tasks st))
         (receipts st))
      taskId
      [TaskCreated taskId (sender env) specHash].

Definition submitReceipt (st : State) (env : Env) (taskId : Z)
    (artifactHash resultHash : bytes32) : Outcome unit :=
  if decide (requester (tasks_at st taskId) = address0) then
    Failed (Revert "Task does not exist")
  else if decide (operator (receipts_at st taskId) <> address0) then
    Failed (Revert "Receipt already submitted")
  else if decide (artifactHash = zero32) then
    Failed (Revert "Artifact hash cannot be zero")
  else if decide (resultHash = zero32) then
    Failed (Revert "Result hash cannot be zero")
  else
    Success
      (mkState (nextTaskId st) (tasks st)
         (<[taskId := mkReceipt (sender env) artifactHash resultHash
                        (timestamp env)]> (receipts st)))
      tt
      [ReceiptSubmitted taskId (sender env) artifactHash resultHash].

(** *** Transactions and traces *)

Inductive Call :=
| CreateTask (specHash : bytes32)
| SubmitReceipt (taskId : Z) (artifactHash resultHash : bytes32).

Record Tx := mkTx { tx_env : Env; tx_call : Call }.

Inductive TxResult :=
| Created (taskId : Z)
| Submitted
| Reverted (f : Failure).

(** A transaction that fails leaves the storage as it was. *)
Definition step (st : State) (tx : Tx) : State * TxResult :=
  match tx_call tx with
  | CreateTask h =>
      match createTask st (tx_env tx) h with
      | Success st' id _ => (st', Created id)
      | Failed f => (st, Reverted f)
      end
  | SubmitReceipt id ah rh =>
      match submitReceipt st (tx_env tx) id ah rh with
      | Success st' _ _ => (st', Submitted)
      | Failed f => (st, Reverted f)
      end
  end.

(** Running a list of transactions, with the record of what each did. *)
Fixpoint run (st : State) (txs : list Tx) : State * list (Tx * TxResult) :=
  match txs with
  | [] => (st, [])
  | tx :: rest =>
      let '(st1, r) := step st tx in
      let '(st2, log) := run st1 rest in
      (st2, (tx, r) :: log)
  end.

(** The ids handed out by the successful [createTask] calls, in order. *)
Fixpoint created_ids (log : list (Tx * TxResult)) : list Z :=
  match log with
  | [] => []
  | (_, Created id) :: rest => id :: created_ids rest
  | _ :: rest => created_ids rest
  end.

(** Whether a [submitReceipt] for [taskId] succeeded in the record. *)
Definition submitted_for (taskId : Z) (e : Tx * TxResult) : bool :=
  match tx_call e.1, e.2 with
  | SubmitReceipt id _ _, Submitted => bool_decide (id = taskId)
  | _, _ => false
  end.
Definition receipt_submitted (log : list (Tx * TxResult)) (taskId : Z)
  : bool :=
  existsb (submitted_for taskId) log.

(** Senders are accounts: an address other than [address(0)]. *)
Definition valid_sender (a : address) : Prop := 0 < a <= MAX_ADDRESS.
Definition valid_tx (tx : Tx) : Prop := valid_sender (sender (tx_env tx)).

Inductive reachable : State -> Prop :=
| reachable_init : reachable init
| reachable_step st tx :
    reachable st -> valid_tx tx -> reachable (step st tx).1.

(** What holds of the storage in every reachable state. *)
Record registry_inv (st : State) : Prop := {
  inv_counter : 0 <= nextTaskId st <= MAX_UINT256;
  inv_tasks : forall id, is_Some (tasks st !! id) <-> 0 <= id < nextTaskId st;
  inv_requester : forall id t, tasks st !! id = Some t -> requester t <> address0;
  inv_receipts : forall id r, receipts st !! id = Some r ->
    operator r <> address0 /\ is_Some (tasks st !! id)
}.

(** A task (a receipt) exists when its slot has been written. *)
Definition task_exists (st : State) (taskId : Z) : Prop :=
  is_Some (tasks st !! taskId).
Definition receipt_exists (st : State) (taskId : Z) : Prop :=
  is_Some (receipts st !! taskId).

(** The error kinds by which the specification (section 7) names the
    revert messages of the contract (section 6). *)
Inductive ErrorKind := ValidationError | NotFoundError | ConflictError.

Definition error_kind (f : Failure) : option ErrorKind :=
  match f with
  | Revert r =>
      if decide (r = "Spec hash cannot be zero") then Some ValidationError
      else if decide (r = "Artifact hash cannot be zero") then
        Some ValidationError
      else if decide (r = "Result hash cannot be zero") then
        Some ValidationError
      else if decide (r = "Task does not exist") then Some NotFoundError
      else if decide (r = "Receipt already submitted") then
        Some ConflictError
      else None
  | Panic _ => None
  end.

Definition fails_with {A} (o : Outcome A) (k : ErrorKind) (r : string)
  : Prop :=
  o = Failed (Revert r) /\ error_kind (Revert r) = Some k.

End Registry.

(* ================================================================= *)
(** ** The view of a task and the statuses of the status route *)

Module Client.
Import Registry.

(** [getTask]: the view [tasks(taskId)], as it is. *)
Definition getTask (st : State) (taskId : Z) : Task := tasks_at st taskId.

(** The status that the task status route reports. *)
Inductive Status := PENDING | COMPLETED.

End Client.

(* ================================================================= *)
(** ** ethers: bytes, hex strings and keccak256 *)

Module Ethers.

Definition hex_digit (n : N) : ascii :=
  match n with
  | 0 => "0" | 1 => "1" | 2 => "2" | 3 => "3" | 4 => "4" | 5 => "5"
  | 6 => "6" | 7 => "7" | 8 => "8" | 9 => "9" | 10 => "a" | 11 => "b"
  | 12 => "c" | 13 => "d" | 14 => "e" | _ => "f"
  end%N%char.

(** The value of a hex digit, of either case. *)
Definition hex_value (c : ascii) : option N :=
  let n := N_of_ascii c in
  if (48 <=? n)%N && (n <=? 57)%N then Some (n - 48)%N
  else if (97 <=? n)%N && (n <=? 102)%N then Some (n - 87)%N
  else if (65 <=? n)%N && (n <=? 70)%N then Some (n - 55)%N
  else None.

Definition hexlify_byte (b : byte) (rest : string) : string :=
  String (hex_digit (Byte.to_N b / 16))
    (String (hex_digit (Byte.to_N b mod 16)) rest).

(** The hex digits of a byte string, two for each byte. *)
Fixpoint hex_digits (bs : list byte) : string :=
  match bs with
  | [] => ""
  | b :: rest => hexlify_byte b (hex_digits rest)
  end.

(** [ethers.hexlify]: the digits behind the prefix "0x". *)
Definition hexlify (bs : list byte) : string := "0x" +:+ hex_digits bs.

Definition parse_byte (hi lo : ascii) : option byte :=
  h ← hex_value hi; l ← hex_value lo; Byte.of_N (16 * h + l).

(** Pairs of hex digits to bytes; [None] for anything else. *)
Fixpoint parse_hex_digits (s : string) : option (list byte) :=
  match s with
  | "" => Some []
  | String hi (String lo rest) =>
      b ← parse_byte hi lo; bs ← parse_hex_digits rest; Some (b :: bs)
  | String _ "" => None
  end.

(** A [BytesLike] argument: a hex string or a byte array (a Buffer). *)
Inductive BytesLike :=
| HexString (s : string)
| Bytes (bs : list byte).

(** [ethers.getBytes]; [None] is the "invalid BytesLike value" error.
    A string has to match /^0x([0-9a-f][0-9a-f])*$/i. *)
Definition getBytes (v : BytesLike) : option (list byte) :=
  match v with
  | Bytes bs => Some bs
  | HexString (String "0" (String x digits)) =>
      if decide (x = "x"%char \/ x = "X"%char) then parse_hex_digits digits
      else None
  | HexString _ => None
  end.

(** The Keccak-256 permutation is not part of the repository: the
    digest of a byte string is a parameter of the development. *)
Class Keccak := keccak256_bytes : list byte -> list byte.

(** [ethers.keccak256]: the digest of the bytes, as a hex string. *)
Definition keccak256 `{Keccak} (data : BytesLike) : option string :=
  bs ← getBytes data; Some (hexlify (keccak256_bytes bs)).

(** [ethers.toUtf8Bytes], on ASCII text. *)
Definition toUtf8Bytes (s : string) : list byte := list_byte_of_string s.

(** [s.slice(n)]: the string without its first [n] characters. *)
Fixpoint slice (n : nat) (s : string) : string :=
  match n, s with
  | O, _ => s
  | S n', String _ rest => slice n' rest
  | S _, "" => ""
  end.

(** A hex string as the [bytes32] argument of a contract call: the
    ABI encoder wants exactly 32 bytes. *)
Definition to_bytes32 (hex : string) : option (list byte) :=
  bs ← getBytes (HexString hex);
  if decide (length bs = 32%nat) then Some bs else None.

End Ethers.

(* ================================================================= *)
(** ** JSON documents and [JSON.stringify] *)

Module JSON.

(** A finite Number: an integer, or another double given by the
    decimal text that [Number::toString] prints for it. *)
Inductive Num :=
| Int (z : Z)
| Dec (text : string).

#[local] Unset Elimination Schemes.
Inductive json :=
| JNull
| JBool (b : bool)
| JNum (n : Num)
| JStr (s : string)
| JArr (items : list json)
| JObj (props : list (string * json)).
#[local] Set Elimination Schemes.

Definition num_to_string (n : Num) : string :=
  match n with
  | Int z => pretty z
  | Dec text => text
  end.

(** The double quote character. *)
Definition dquote : ascii := ascii_of_N 34.

(** QuoteJSONString, one code unit at a time. *)
Definition quote_char (c : ascii) (rest : string) : string :=
  let n := N_of_ascii c in
  if (n =? 34)%N then String "\" (String dquote rest)
  else if (n =? 92)%N then String "\" (String "\" rest)
  else if (n =? 8)%N then String "\" (String "b" rest)
  else if (n =? 9)%N then String "\" (String "t" rest)
  else if (n =? 10)%N then String "\" (String "n" rest)
  else if (n =? 12)%N then String "\" (String "f" rest)
  else if (n =? 13)%N then String "\" (String "r" rest)
  else if (n <? 32)%N then
    String "\" (String "u" (String "0" (String "0"
      (String (Ethers.hex_digit (n / 16))
         (String (Ethers.hex_digit (n mod 16)) rest)))))
  else String c rest.

Fixpoint quote_body (s : string) : string :=
  match s with
  | "" => String dquote ""
  | String c rest => quote_char c (quote_body rest)
  end.

Definition quote (s : string) : string := String dquote (quote_body s).

Definition newline : string := String (ascii_of_N 10) "".

(** The text of an array or an object from the texts of its parts. *)
Definition wrap (opening closing gap indent stepback : string)
    (partial : list string) : string :=
  match partial with
  | [] => opening +:+ closing
  | _ =>
      if decide (gap = "") then
        opening +:+ String.concat "," partial +:+ closing
      else
        opening +:+ newline +:+ indent
        +:+ String.concat ("," +:+ newline +:+ indent) partial
        +:+ newline +:+ stepback +:+ closing
  end.

Definition member (gap : string) (p : string * string) : string :=
  quote p.1 +:+ (if decide (gap = "") then ":" else ": ") +:+ p.2.

(** The first property of that name. *)
Fixpoint assoc {A} (k : string) (props : list (string * A)) : option A :=
  match props with
  | [] => None
  | (k', v) :: rest => if decide (k' = k) then Some v else assoc k rest
  end.

(** SerializeJSONProperty with a property list [K] (the array given as
    replacer) or none.  With a property list an object prints the
    listed keys it has, in the order of the list, and this at every
    depth; without one it prints its own keys in their order. *)
Fixpoint serialize (K : option (list string)) (gap indent : string)
    (v : json) {struct v} : string :=
  match v with
  | JNull => "null"
  | JBool b => if b then "true" else "false"
  | JNum n => num_to_string n
  | JStr s => quote s
  | JArr items =>
      wrap "[" "]" gap (indent +:+ gap) indent
        (map (serialize K gap (indent +:+ gap)) items)
  | JObj props =>
      let members :=
        map (fun p => (fst p, serialize K gap (indent +:+ gap) (snd p)))
          props in
      let partial :=
        match K with
        | None => map (member gap) members
        | Some keys =>
            omap (fun k => (fun s => member gap (k, s)) <$> assoc k members)
              keys
        end in
      wrap "{" "}" gap (indent +:+ gap) indent partial
  end.

Fixpoint spaces (n : nat) : string :=
  match n with
  | O => ""
  | S n' => String " " (spaces n')
  end.

(** [JSON.stringify(value, replacer, space)] with an array (or null)
    as replacer and a number of spaces (at most 10). *)
Definition stringify (value : json) (replacer : option (list string))
    (space : nat) : string :=
  serialize replacer (spaces (Nat.min space 10)) "" value.

(** [Object.keys] of an object with these properties. *)
Definition Object_keys (props : list (string * json)) : list string :=
  map fst props.

(** [array.sort()] on an array of strings: ascending by code units,
    which is the order [String.le]. *)
Definition sort (l : list string) : list string := merge_sort String.le l.

End JSON.

(* ================================================================= *)
(** ** The local file system (fs-extra) *)

Module FS.

Inductive Entry :=
| File (content : list byte)
| Directory.

(** A directory is a finite map from names to entries, and the disk a
    finite map from directory paths to directories.  The entries are
    regular files and directories that can be read; each directory is
    kept under its own path, and the calls below act on the directory
    at the path they are given: the listing of its parent and the
    directories below it are not part of what they change here. *)
Abbreviation Folder := (gmap string Entry).
Abbreviation Disk := (gmap string (gmap string Entry)).

(** [fs.readdir] lists the names of a directory in an order of the
    operating system's choosing. *)
Class Readdir := readdir_order : Folder -> list string.

Class ReaddirSpec `{Readdir} :=
  readdir_perm : forall f : Folder, readdir_order f ≡ₚ (map_to_list f).*1.

(** The calls return [None] where fs-extra throws (ENOENT, EISDIR). *)
Definition readdir `{Readdir} (disk : Disk) (path : string)
  : option (list string) :=
  readdir_order <$> disk !! path.

Definition stat (disk : Disk) (dir name : string) : option Entry :=
  folder ← disk !! dir; folder !! name.

Definition isFile (e : Entry) : bool :=
  match e with
  | File _ => true
  | Directory => false
  end.

Definition readFile (disk : Disk) (dir name : string) : option (list byte) :=
  match stat disk dir name with
  | Some (File content) => Some content
  | _ => None
  end.

Definition remove (disk : Disk) (path : string) : Disk := delete path disk.

Definition ensureDir (disk : Disk) (path : string) : Disk :=
  match disk !! path with
  | Some _ => disk
  | None => <[path := ∅]> disk
  end.

Definition writeFile (disk : Disk) (dir name : string) (content : list byte)
  : option Disk :=
  folder ← disk !! dir;
  match folder !! name with
  | Some Directory => None
  | _ => Some (<[dir := <[name := File content]> folder]> disk)
  end.

End FS.

(* ================================================================= *)
(** ** backend/utils/hash.js *)

Module Hash.
Import Ethers JSON FS.

(** [hashJSON(obj)], on the properties of the object. *)
Definition hashJSON `{Keccak} (obj : list (string * json)) : option string :=
  let sortedJSON := stringify (JObj obj) (Some (sort (Object_keys obj))) 0 in
  let encoded := toUtf8Bytes sortedJSON in
  keccak256 (Bytes encoded).

(** The loop of [hashArtifactFolder] over the sorted names. *)
Fixpoint hash_files `{Keccak} (disk : Disk) (folderPath : string)
    (sortedFiles : list string) (combinedHash : string) : option string :=
  match sortedFiles with
  | [] => Some combinedHash
  | file :: rest =>
      stats ← stat disk folderPath file;
      if isFile stats then
        content ← readFile disk folderPath file;
        fileHash ← keccak256 (Bytes content);
        hash_files disk folderPath rest (combinedHash +:+ slice 2 fileHash)
      else hash_files disk folderPath rest combinedHash
  end.

Definition hashArtifactFolder `{Keccak} `{Readdir} (disk : Disk)
    (folderPath : string) : option string :=
  files ← readdir disk folderPath;
  let sortedFiles := sort files in
  combinedHash ← hash_files disk folderPath sortedFiles "";
  if decide (combinedHash = "") then keccak256 (HexString "0x")
  else keccak256 (HexString ("0x" +:+ combinedHash)).

(** *** The artifact hash as the specification words it *)

(** The contents of the regular files among [names], in that order. *)
Definition regular_files (folder : Folder) (names : list string)
  : list (list byte) :=
  omap (fun name =>
          match folder !! name with
          | Some (File content) => Some content
          | _ => None
          end) names.

(** Sort the names, hash each regular file, concatenate the hashes in
    that order, hash the concatenation. *)
Definition artifact_digest `{Keccak} (folder : Folder) : list byte :=
  keccak256_bytes
    (concat (map keccak256_bytes
               (regular_files folder (sort (map_to_list folder).*1)))).

(** *** The task specification that is hashed *)

Record Config := mkConfig {
  cpuDurationMs : Num;
  memorySizeMB : Num;
  diskSizeMB : Num
}.

Record TaskSpec := mkTaskSpec {
  type : string;
  duration : Num;
  config : Config;
  createdAt : string
}.

(** The [taskSpec] object of POST /tasks/create. *)
Definition taskSpec_object (t : TaskSpec) : list (string * json) :=
  [ ("type", JStr (type t));
    ("duration", JNum (duration t));
    ("config",
      JObj [ ("cpuDurationMs", JNum (cpuDurationMs (config t)));
             ("memorySizeMB", JNum (memorySizeMB (config t)));
             ("diskSizeMB", JNum (diskSizeMB (config t))) ]);
    ("createdAt", JStr (createdAt t)) ].

End Hash.

(* ================================================================= *)
(** ** The benchmark: the CPU and the memory phase *)

Module Benchmark.

(** *** Numbers

    The Numbers of these two phases have integer values, and are
    integers of [Z] here.  Sums, products and increments of integers
    below 2^53 are exact in double precision, and the CPU phase stays
    below (its counters grow by one in each turn of the loop); the
    running sum of the memory phase does not, so there the rounding of
    each addition is written out. *)

(** 2^53: up to it, every integer is a double. *)
Definition TWO_53 : Z := Eval cbv in 2 ^ 53.

(** The double nearest to an integer, ties to the even significand
    (IEEE 754 binary64; integers below 2^1024). *)
Definition round_double (x : Z) : Z :=
  let a := Z.abs x in
  if a <? TWO_53 then x
  else
    let e := Z.log2 a - 52 in
    let q := Z.shiftr a e in
    let r := Z.land a (Z.ones e) in
    let half := Z.shiftl 1 (e - 1) in
    let q' :=
      if r <? half then q
      else if half <? r then q + 1
      else if Z.even q then q else q + 1 in
    Z.sgn x * Z.shiftl q' e.

Definition num_add (a b : Z) : Z := round_double (a + b).
Definition num_mul (a b : Z) : Z := round_double (a * b).

(** *** cpuTest *)

(** The loop [for (let i = 5; i * i <= n; i += 6)] of [isPrime];
    [None] when the fuel runs out before the loop ends. *)
Fixpoint isPrime_loop (fuel : nat) (n i : Z) : option bool :=
  if i * i <=? n then
    match fuel with
    | O => None
    | S fuel' =>
        if (Z.rem n i =? 0) || (Z.rem n (i + 2) =? 0) then Some false
        else isPrime_loop fuel' n (i + 6)
    end
  else Some true.

Definition isPrime (n : Z) : option bool :=
  if n <=? 1 then Some false
  else if n <=? 3 then Some true
  else if (Z.rem n 2 =? 0) || (Z.rem n 3 =? 0) then Some false
  else isPrime_loop (Z.to_nat n) n 5.

(** The variables of the loop of [cpuTest]. *)
Record CpuLoop := mkCpuLoop {
  num : Z;
  loop_iterations : Z;
  primeCount : Z;
  lastLogTime : Z
}.

(** The loop [while (Date.now() - startTime < durationMs)].  The clock
    is the list of the values that the coming calls of [Date.now()]
    return: one for the test of the loop and one for [now] in its body.
    [None] when the list ends before the loop does. *)
Fixpoint cpu_loop (durationMs startTime : Z) (clock : list Z) (s : CpuLoop)
  : option (CpuLoop * list Z) :=
  match clock with
  | [] => None
  | t :: clock1 =>
      if t - startTime <? durationMs then
        match isPrime (num s), clock1 with
        | Some p, now :: clock2 =>
            cpu_loop durationMs startTime clock2
              (mkCpuLoop (num s + 1) (loop_iterations s + 1)
                 (if p then primeCount s + 1 else primeCount s)
                 (if 1000 <=? now - lastLogTime s then now
                  else lastLogTime s))
        | _, _ => None
        end
      else Some (s, clock1)
  end.

(** What [cpuTest] returns, but for [opsPerSecond], a rate computed in
    floating point from the measured time. *)
Record CpuResult := mkCpuResult {
  iterations : Z;
  primesFound : Z;
  durationMs : Z
}.

Definition cpuTest (durationMs : Z) (clock : list Z)
  : option (CpuResult * list Z) :=
  match clock with
  | [] => None
  | startTime :: clock1 =>
      match cpu_loop durationMs startTime clock1
              (mkCpuLoop 2 0 0 startTime) with
      | Some (s, t_end :: rest) =>
          Some (mkCpuResult (loop_iterations s) (primeCount s)
                  (t_end - startTime), rest)
      | _ => None
      end
  end.

(** *** memoryTest *)

(** The longest array: 2^32 - 1 elements. *)
Definition MAX_ARRAY_LENGTH : Z := 2 ^ 32 - 1.

(** The elements of an array lie in one store, and the engine of Node
    (V8, 64 bit) makes no store of 2^27 elements or more: filling an
    array that long, index after index, ends in the RangeError "Invalid
    array length".  The bound of the engine lies a few elements below
    2^27; the lengths that [memoryTest] asks for are multiples of 2^17,
    for which the two are the same bound (1023 megabytes are within it,
    1024 are not). *)
Definition MAX_STORE_LENGTH : Z := 2 ^ 27 - 1.

(** The loop [for (let i = 0; i < bound; i++) body]. *)
Fixpoint for_loop {St : Type} (fuel : nat) (i bound : Z)
    (body : Z -> St -> St) (s : St) : option St :=
  if i <? bound then
    match fuel with
    | O => None
    | S fuel' => for_loop fuel' (num_add i 1) bound body (body i s)
    end
  else Some s.

(** What [memoryTest] returns, but for the measured times and rates.
    The checksum is [None] when it is [NaN]. *)
Record MemoryResult := mkMemoryResult {
  allocatedMB : Z;
  checksum : option Z
}.

(** An array is a list of slots, each one empty or holding a number. *)
Definition write_slot (i : Z) (array : list (option Z)) : list (option Z) :=
  <[Z.to_nat i := Some (num_mul i 2)]> array.

(** [sum += array[i]]; reading an empty slot makes the sum [NaN]. *)
Definition add_slot (array : list (option Z)) (i : Z) (sum : option Z)
  : option Z :=
  match sum, array !! Z.to_nat i with
  | Some s, Some (Some v) => Some (num_add s v)
  | _, _ => None
  end.

(** [memoryTest(sizeMB)] for a whole number of megabytes.  [None] is a
    RangeError: that of [new Array(arraySize)], for a length that is
    negative or beyond 2^32 - 1, and that of the write pass, which
    throws before it ends when the array has more elements than one
    store holds. *)
Definition memoryTest (sizeMB : Z) : option MemoryResult :=
  let arraySize := num_mul (num_mul sizeMB 1024) 1024 / 8 in
  if (arraySize <? 0) || (MAX_ARRAY_LENGTH <? arraySize) then None
  else if MAX_STORE_LENGTH <? arraySize then None
  else
    let array := replicate (Z.to_nat arraySize) None in
    array ← for_loop (Z.to_nat arraySize) 0 arraySize write_slot array;
    sum ← for_loop (Z.to_nat arraySize) 0 arraySize (add_slot array) (Some 0);
    Some (mkMemoryResult sizeMB ((fun s => Z.rem s 1000000) <$> sum)).

(** A clock that stands at [t] for [k] turns of the loop of [cpuTest],
    two readings for each turn, and then goes on with [rest]. *)
Fixpoint steady_clock (k : nat) (t : Z) (rest : list Z) : list Z :=
  match k with
  | O => rest
  | S k' => t :: t :: steady_clock k' t rest
  end.

(** *** The counts and the checksum as the specification words them *)

#[global] Instance Zprime_dec (p : Z) : Decision (Z.prime p).
Proof.
  destruct (Znumtheory.prime_dec p) as [Hp|Hn].
  - left. by apply Znumtheory.prime_alt.
  - right. intros Hp. by apply Hn, Znumtheory.prime_alt.
Defined.

(** The number of primes in [2, N]. *)
Definition count_primes (N : Z) : Z :=
  Z.of_nat (length (filter Z.prime (seqZ 2 (N - 1)))).

(** What the loop of [cpuTest] keeps: the next number to test is two
    more than the turns made, and the primes counted are those among the
    numbers tested. *)
Definition cpu_inv (s : CpuLoop) : Prop :=
  num s = loop_iterations s + 2 /\ 0 <= loop_iterations s /\
  primeCount s = count_primes (num s - 1).

(** The sum of the written buffer: 2*i for i in [0, N). *)
Definition buffer_sum (N : Z) : Z :=
  foldr Z.add 0 ((fun i => 2 * i) <$> seqZ 0 N).

End Benchmark.

(* ================================================================= *)
(** ** backend/services/artifacts.js *)

Module Artifacts.
Import Ethers JSON FS Hash.

(** Calls that read and write the disk and can throw: the disk after
    the call, and the value returned, or [None] when the call threw. *)
Definition IO (A : Type) : Type := Disk -> Disk * option A.

Definition ret {A} (a : A) : IO A := fun disk => (disk, Some a).

Definition bind {A B} (c : IO A) (k : A -> IO B) : IO B :=
  fun disk =>
    match c disk with
    | (disk', Some a) => k a disk'
    | (disk', None) => (disk', None)
    end.

Notation "'let*' x ':=' c 'in' k" := (bind c (fun x => k))
  (at level 10, x name, c at level 100, k at level 200, only parsing).

(** A call that leaves the disk as it is. *)
Definition reading {A} (f : Disk -> option A) : IO A :=
  fun disk => (disk, f disk).

(** A call that changes the disk, or throws and leaves it. *)
Definition writing (f : Disk -> option Disk) : IO unit :=
  fun disk =>
    match f disk with
    | Some disk' => (disk', Some tt)
    | None => (disk, None)
    end.

(** [process.cwd()]. *)
Class Process := cwd : string.

(** The text of a task id in a template string: its decimal digits
    (the text of a Number with an integer value below 10^21). *)
Definition artifact_path `{Process} (taskId : Z) : string :=
  cwd +:+ "/artifacts/task-" +:+ pretty taskId.

(** [value.name], for a value that may be [undefined] ([None]); the
    outer [None] is the TypeError of reading a property of [undefined]
    or [null]. *)
Definition property (value : option json) (name : string)
  : option (option json) :=
  match value with
  | None | Some JNull => None
  | Some (JObj props) => Some (assoc name props)
  | Some _ => Some None
  end.

(** A property of an object literal; [JSON.stringify] leaves out the
    properties whose value is [undefined]. *)
Definition field (name : string) (value : option json)
  : list (string * json) :=
  match value with
  | Some v => [(name, v)]
  | None => []
  end.

(** The [metrics] object of [createArtifactFolder]. *)
Definition metrics_of (benchmarkResults : json) : option json :=
  let results := Some benchmarkResults in
  totalDurationMs ← property results "totalDurationMs";
  timestamp ← property results "timestamp";
  systemInfo ← property results "systemInfo";
  tests ← property results "tests";
  cpu ← property tests "cpu";
  cpuOpsPerSecond ← property cpu "opsPerSecond";
  memory ← property tests "memory";
  memoryWriteMBps ← property memory "writeMBps";
  memoryReadMBps ← property memory "readMBps";
  disk ← property tests "disk";
  diskWriteMBps ← property disk "writeMBps";
  diskReadMBps ← property disk "readMBps";
  Some (JObj
    (field "totalDurationMs" totalDurationMs
     ++ field "timestamp" timestamp
     ++ field "systemInfo" systemInfo
     ++ [("summary",
          JObj (field "cpuOpsPerSecond" cpuOpsPerSecond
                ++ field "memoryWriteMBps" memoryWriteMBps
                ++ field "memoryReadMBps" memoryReadMBps
                ++ field "diskWriteMBps" diskWriteMBps
                ++ field "diskReadMBps" diskReadMBps))])).

Definition createArtifactFolder `{Process} (taskId : Z)
    (benchmarkResults : json) (logs : list string) : IO string :=
  let artifactPath := artifact_path taskId in
  let* _ := writing (fun disk => Some (remove disk artifactPath)) in
  let* _ := writing (fun disk => Some (ensureDir disk artifactPath)) in
  let logContent := String.concat newline logs +:+ newline in
  let* _ := writing (fun disk =>
         writeFile disk artifactPath "execution.log"
           (toUtf8Bytes logContent)) in
  let* metrics := reading (fun _ => metrics_of benchmarkResults) in
  let* _ := writing (fun disk =>
         writeFile disk artifactPath "metrics.json"
           (toUtf8Bytes (stringify metrics None 2))) in
  let* _ := writing (fun disk =>
         writeFile disk artifactPath "result.json"
           (toUtf8Bytes (stringify benchmarkResults None 2))) in
  ret artifactPath.

(** The directory that [createArtifactFolder] leaves behind. *)
Definition artifact_folder (benchmarkResults metrics : json)
    (logs : list string) : Folder :=
  <["result.json" := File (toUtf8Bytes (stringify benchmarkResults None 2))]>
    (<["metrics.json" := File (toUtf8Bytes (stringify metrics None 2))]>
       (<["execution.log" :=
            File (toUtf8Bytes (String.concat newline logs +:+ newline))]> ∅)).

(** [createReceipt]; [createdAt] is [new Date().toISOString()]. *)
Definition createReceipt `{Process} (taskId : Z)
    (artifactHash resultHash artifactUrl createdAt : string) : IO unit :=
  let artifactPath := artifact_path taskId in
  let receipt :=
    JObj [ ("taskId", JNum (Int taskId));
           ("artifactHash", JStr artifactHash);
           ("resultHash", JStr resultHash);
           ("artifactUrl", JStr artifactUrl);
           ("createdAt", JStr createdAt);
           ("operator", JStr "infraproof-backend") ] in
  writing (fun disk =>
    writeFile disk artifactPath "receipt.json"
      (toUtf8Bytes (stringify receipt None 2))).

(** The storage network, as the backend sees it: its configuration,
    and for each object whether [getClient] and the upload of the
    object go through or throw. *)
Class Greenfield := mkGreenfield {
  bucket : option string;
  privateKey : option string;
  accountAddress : option string;
  getClient : bool;
  uploadFileToGreenfield : string -> list byte -> bool
}.

(** A configuration value is set when it is a string with characters. *)
Definition is_set (value : option string) : bool :=
  match value with
  | Some s => negb (bool_decide (s = ""))
  | None => false
  end.

Definition greenfield_url (taskId : Z) : string :=
  "https://testnet.greenfieldscan.com/bucket/0x0000000000000000000000000000000000000000000000000000000000005863?tab=object&keyword=task-"
  +:+ pretty taskId.

(** The loop of [uploadToGreenfield] over the listed files; [None]
    when a call in it throws. *)
Fixpoint upload_files `{Greenfield} (disk : Disk) (folderPath : string)
    (taskId : Z) (files : list string) : option unit :=
  match files with
  | [] => Some tt
  | fileName :: rest =>
      stats ← stat disk folderPath fileName;
      if negb (isFile stats) then upload_files disk folderPath taskId rest
      else
        fileBuffer ← readFile disk folderPath fileName;
        let objectName := "task-" +:+ pretty taskId +:+ "/" +:+ fileName in
        if uploadFileToGreenfield objectName fileBuffer
        then upload_files disk folderPath taskId rest
        else None
  end.

Definition uploadToGreenfield `{Greenfield} `{Readdir} (disk : Disk)
    (folderPath : string) (taskId : Z) : string :=
  if negb (is_set bucket) || negb (is_set privateKey)
     || negb (is_set accountAddress)
  then
    let mockUrl := greenfield_url taskId in
    mockUrl
  else
    let attempt :=
      if getClient then
        files ← readdir disk folderPath;
        upload_files disk folderPath taskId files
      else None in
    match attempt with
    | Some _ =>
        let artifactUrl := greenfield_url taskId in
        artifactUrl
    | None =>
        let mockUrl := greenfield_url taskId in
        mockUrl
    end.

Record Processed := mkProcessed {
  artifactPath : string;
  artifactUrl : string;
  artifactHash : string;
  resultHash : string
}.

Definition processArtifacts `{Keccak} `{Readdir} `{Greenfield} `{Process}
    (taskId : Z) (benchmarkResults : json) (logs : list string)
    (createdAt : string) : IO Processed :=
  let* artifactPath := createArtifactFolder taskId benchmarkResults logs in
  let* artifactUrl := reading (fun disk =>
                   Some (uploadToGreenfield disk artifactPath taskId)) in
  let* artifactHash := reading (fun disk => hashArtifactFolder disk artifactPath) in
  let* resultContent := reading (fun disk =>
                     readFile disk artifactPath "result.json") in
  let* resultHash := reading (fun _ => keccak256 (Bytes resultContent)) in
  let* _ := createReceipt taskId artifactHash resultHash artifactUrl createdAt in
  ret (mkProcessed artifactPath artifactUrl artifactHash resultHash).

End Artifacts.

(* ================================================================= *)
(** ** backend/contracts/executionRegistry.js: the calls of the routes *)

Module Wrapper.
Import Ethers Registry.

(** [Number.MAX_SAFE_INTEGER]. *)
Definition MAX_SAFE_INTEGER : Z := Eval cbv in 2 ^ 53 - 1.

(** A Number with an integer value, given for a [uint256] parameter:
    ethers takes the integers from -(2^53 - 1) to 2^53 - 1, and its
    encoder those that are not negative.  [None] when the argument is
    refused; the Number of an integer beyond 2^53 - 1 is beyond it as
    well, and refused. *)
Definition to_uint256 (n : Z) : option Z :=
  if (n <? 0) || (MAX_SAFE_INTEGER <? n) then None else Some n.

(** [receipt.logs.find(...)]: the first log that parses as TaskCreated,
    and its [taskId]. *)
Fixpoint find_TaskCreated (logs : list Event) : option Z :=
  match logs with
  | [] => None
  | TaskCreated taskId _ _ :: _ => Some taskId
  | _ :: rest => find_TaskCreated rest
  end.

(** [createTask(specHash)], but for the transaction hash: the ledger
    after the call, and the task id as a Number, or [None] when the call
    throws (the hash is not a [bytes32], the transaction reverts, or no
    TaskCreated event is found). *)
Definition createTask (st : State) (env : Env) (specHash : string)
  : State * option Z :=
  match to_bytes32 specHash with
  | None => (st, None)
  | Some h =>
      match Registry.createTask st env h with
      | Failed _ => (st, None)
      | Success st' _ logs =>
          match find_TaskCreated logs with
          | None => (st', None)
          | Some taskId => (st', Some (Benchmark.round_double taskId))
          end
      end
  end.

(** [getTask(taskId)]; [createdAt] is [Number(task.createdAt)]. *)
Definition getTask (st : State) (taskId : Z) : option Task :=
  id ← to_uint256 taskId;
  let task := tasks_at st id in
  Some (mkTask (requester task) (specHash task)
          (Benchmark.round_double (createdAt task))).

(** [getReceipt(taskId)]; the inner [None] is [null]. *)
Definition getReceipt (st : State) (taskId : Z) : option (option Receipt) :=
  id ← to_uint256 taskId;
  let receipt := receipts_at st id in
  if decide (operator receipt = address0) then Some None
  else
    Some (Some (mkReceipt (operator receipt) (artifactHash receipt)
                  (resultHash receipt)
                  (Benchmark.round_double (completedAt receipt)))).

End Wrapper.

(* ================================================================= *)
(** ** POST /tasks/execute/:taskId *)

Module Route.
Import Ethers JSON FS Hash Artifacts.

(** The backend's disk and the ledger. *)
Record World := mkWorld {
  disk : Disk;
  ledger : Registry.State
}.

(** What one request meets: the parsed task id ([None] is [NaN]); what
    [runBenchmark] returns ([None] when it throws) and the log lines
    captured until then; the time written into the receipt file; and the
    sender and the block time of the transaction. *)
Record Request := mkRequest {
  param : option Z;
  benchmark : option json;
  logs : list string;
  createdAt : string;
  env : Registry.Env
}.

Inductive Response :=
| BadRequest (error : string)
| ServerError
| Executed (taskId : Z) (artifactHash resultHash artifactUrl : string).

(** [contract.submitReceipt(taskId, artifactHash, resultHash)] and the
    wait for the transaction: the new ledger, or [None] when encoding
    the arguments or the transaction fails. *)
Definition submitReceipt (st : Registry.State) (env : Registry.Env)
    (taskId : Z) (artifactHash resultHash : string)
  : option Registry.State :=
  id ← Wrapper.to_uint256 taskId;
  ah ← to_bytes32 artifactHash;
  rh ← to_bytes32 resultHash;
  match Registry.submitReceipt st env id ah rh with
  | Registry.Success st' _ _ => Some st'
  | Registry.Failed _ => None
  end.

Definition execute_route `{Keccak} `{Readdir} `{Greenfield} `{Process}
    (w : World) (req : Request) : World * Response :=
  match param req with
  | None => (w, BadRequest "Invalid task ID")
  | Some taskId =>
      if taskId <? 0 then (w, BadRequest "Invalid task ID")
      else
        match benchmark req with
        | None => (w, ServerError)
        | Some benchmarkResults =>
            match processArtifacts taskId benchmarkResults (logs req)
                    (createdAt req) (disk w) with
            | (disk', None) => (mkWorld disk' (ledger w), ServerError)
            | (disk', Some a) =>
                match submitReceipt (ledger w) (env req) taskId
                        (Artifacts.artifactHash a) (Artifacts.resultHash a) with
                | None => (mkWorld disk' (ledger w), ServerError)
                | Some ledger' =>
                    (mkWorld disk' ledger',
                     Executed taskId (Artifacts.artifactHash a)
                       (Artifacts.resultHash a) (artifactUrl a))
                end
            end
        end
  end.

End Route.

(* ================================================================= *)
(** ** backend/routes/tasks.js: the router, task creation, task status *)

Module Tasks.
Import Ethers JSON Hash Registry.

(** *** parseInt *)

(** White space and line terminators, among the code units below 256. *)
Definition is_space (c : ascii) : bool :=
  let n := N_of_ascii c in
  ((9 <=? n) && (n <=? 13) || (n =? 32) || (n =? 160))%N.

Fixpoint trim_start (s : string) : string :=
  match s with
  | String c rest => if is_space c then trim_start rest else s
  | "" => ""
  end.

Definition digit_value (radix : N) (c : ascii) : option N :=
  d ← hex_value c; if (d <? radix)%N then Some d else None.

(** The value of the longest prefix of digits; [acc] is the value of
    the digits read so far, [None] before the first one. *)
Fixpoint digits (radix : N) (s : string) (acc : option N) : option N :=
  match s with
  | String c rest =>
      match digit_value radix c with
      | Some d => digits radix rest (Some (radix * default 0 acc + d)%N)
      | None => acc
      end
  | "" => acc
  end.

(** [parseInt(string)] without a radix: [None] for [NaN], and else the
    Number returned, which is the double nearest to the integer that
    the text denotes; up to 2^53 it is that integer itself. *)
Definition parseInt (s : string) : option Z :=
  let text := trim_start s in
  let signed :=
    match text with
    | String "-" rest => (-1, rest)
    | String "+" rest => (1, rest)
    | _ => (1, text)
    end in
  let prefixed :=
    match signed.2 with
    | String "0" (String x rest) =>
        if decide (x = "x"%char \/ x = "X"%char) then (16%N, rest)
        else (10%N, signed.2)
    | _ => (10%N, signed.2)
    end in
  (fun mathInt => Benchmark.round_double (signed.1 * Z.of_N mathInt))
    <$> digits prefixed.1 prefixed.2 None.

(** *** GET /tasks/:taskId, on the text of the parameter *)

Inductive Reply :=
| Status400 (error : string)
| Status404 (error : string)
| Status500
| TaskStatus (taskId : Z) (task : Task) (status : Client.Status)
    (receipt : option Receipt).

Definition task_route (st : State) (param : string) : Reply :=
  match parseInt param with
  | None => Status400 "Invalid task ID"
  | Some taskId =>
      if taskId <? 0 then Status400 "Invalid task ID"
      else
        match Wrapper.getTask st taskId with
        | None => Status500
        | Some task =>
            if decide (requester task = address0) then
              Status404 "Task not found"
            else
              match Wrapper.getReceipt st taskId with
              | None => Status500
              | Some receipt =>
                  let status :=
                    if receipt is Some _ then Client.COMPLETED
                    else Client.PENDING in
                  TaskStatus taskId task status receipt
              end
        end
  end.

(** *** POST /tasks/create *)

Inductive Created :=
| CreateOk (taskId : Z) (specHash : string) (taskSpec : TaskSpec)
| CreateFailed.

(** The route from the task specification on, as it is built from the
    request body and the clock: hash it, create the task, answer. *)
Definition create_route `{Keccak} (st : State) (env : Env)
    (taskSpec : TaskSpec) : State * Created :=
  match hashJSON (taskSpec_object taskSpec) with
  | None => (st, CreateFailed)
  | Some specHash =>
      match Wrapper.createTask st env specHash with
      | (st', Some taskId) => (st', CreateOk taskId specHash taskSpec)
      | (st', None) => (st', CreateFailed)
      end
  end.

(** *** The router

    The routes in the order in which they are registered.  A request is
    handled by the first route that takes its method and matches its
    path; the handlers here all answer, so no later route is tried. *)

Inductive Method := GET | HEAD | POST | PUT | DELETE.

Inductive Segment :=
| Lit (text : string)
| Param (name : string).

Inductive Handler :=
| create_handler
| execute_handler
| task_handler
| health_handler.

Definition router : list (Method * list Segment * Handler) :=
  [ (POST, [Lit "create"], create_handler);
    (POST, [Lit "execute"; Param "taskId"], execute_handler);
    (GET, [Param "taskId"], task_handler);
    (GET, [Lit "health"], health_handler) ].

(** A route registered for GET takes HEAD requests as well. *)
Definition handles (route_method m : Method) : bool :=
  match route_method, m with
  | GET, GET | GET, HEAD | HEAD, HEAD | POST, POST | PUT, PUT
  | DELETE, DELETE => true
  | _, _ => false
  end.

Definition lower (c : ascii) : ascii :=
  let n := N_of_ascii c in
  if ((65 <=? n) && (n <=? 90))%N then ascii_of_N (n + 32) else c.

Fixpoint lowercase (s : string) : string :=
  match s with
  | "" => ""
  | String c rest => String (lower c) (lowercase rest)
  end.

(** The path cut at its slashes. *)
Fixpoint split (s : string) : list string :=
  match s with
  | "" => [""]
  | String c rest =>
      if decide (c = "/"%char) then "" :: split rest
      else
        match split rest with
        | seg :: segs => String c seg :: segs
        | [] => [String c ""]
        end
  end.

(** Matching as the router of express does by default: a literal
    whatever the case of its letters, a parameter with any text that is
    not empty, and one slash more at the end of the path allowed.  A
    parameter gets the text of its segment as it stands in the path (a
    path without percent escapes). *)
Fixpoint match_segments (pattern : list Segment) (segs : list string)
  : option (list (string * string)) :=
  match pattern, segs with
  | [], [] => Some []
  | [], [last] => if decide (last = "") then Some [] else None
  | Lit text :: pattern', seg :: segs' =>
      if decide (lowercase seg = lowercase text)
      then match_segments pattern' segs'
      else None
  | Param name :: pattern', seg :: segs' =>
      if decide (seg = "") then None
      else
        params ← match_segments pattern' segs'; Some ((name, seg) :: params)
  | _, _ => None
  end.

(** The path of a request starts with a slash. *)
Definition match_path (pattern : list Segment) (path : string)
  : option (list (string * string)) :=
  match split path with
  | "" :: segs => match_segments pattern segs
  | _ => None
  end.

Fixpoint dispatch_in (routes : list (Method * list Segment * Handler))
    (m : Method) (path : string)
  : option (Handler * list (string * string)) :=
  match routes with
  | [] => None
  | (route_method, pattern, handler) :: rest =>
      match (if handles route_method m then match_path pattern path
             else None) with
      | Some params => Some (handler, params)
      | None => dispatch_in rest m path
      end
  end.

(** The handler of a request to the router, with the parameters of the
    path; [None] when no route takes it. *)
Definition dispatch (m : Method) (path : string)
  : option (Handler * list (string * string)) :=
  dispatch_in router m path.

End Tasks.

(* ================================================================= *)
(** ** The benchmark: the disk phase *)

Module Suite.
Import FS Artifacts.






End Suite.

(* ================================================================= *)
(** ** Sample data *)

Section Samples.
Import Ethers JSON FS Hash Artifacts Route Registry.

(** A stand-in for the digest and for the listing order, to run the
    definitions on examples. *)
Definition sample_keccak : Keccak :=
  fun bs =>
    replicate 31 x00%byte
    ++ [default x01%byte (Byte.of_N (N.of_nat (length bs) mod 255 + 1))].

Definition sample_readdir : Readdir := fun f => (map_to_list f).*1.

Definition sample_env : Env := mkEnv 1 1700000000.

Definition sample_hash : bytes32 := replicate 32 x01%byte.

Definition sample_create (h : bytes32) : Tx := mkTx sample_env (CreateTask h).

Definition sample_state : State := (step init (sample_create sample_hash)).1.

Definition sample_submit (id : Z) : Tx :=
  mkTx sample_env (SubmitReceipt id sample_hash sample_hash).

Definition sample_folder : Folder :=
  <["result.json" := File (toUtf8Bytes "{}")]>
    (<["execution.log" := File (toUtf8Bytes "ok")]>
       (<["tmp" := Directory]> ∅)).

Definition sample_disk : Disk := {["artifacts/task-0" := sample_folder]}.

Definition spec_100MB : TaskSpec :=
  mkTaskSpec "SERVER_BENCHMARK" (Int 30)
    (mkConfig (Int 10000) (Int 100) (Int 10)) "2026-01-01T00:00:00.000Z".

Definition spec_200MB : TaskSpec :=
  mkTaskSpec "SERVER_BENCHMARK" (Int 30)
    (mkConfig (Int 10000) (Int 200) (Int 10)) "2026-01-01T00:00:00.000Z".

(** Results of a benchmark, as [runBenchmark] shapes them. *)
Definition sample_results : json :=
  JObj [ ("systemInfo",
           JObj [ ("platform", JStr "linux"); ("cpus", JNum (Int 4)) ]);
         ("tests",
           JObj [ ("cpu",
                    JObj [ ("iterations", JNum (Int 9));
                           ("primesFound", JNum (Int 4));
                           ("durationMs", JNum (Int 5000));
                           ("opsPerSecond", JNum (Int 1)) ]);
                  ("memory",
                    JObj [ ("allocatedMB", JNum (Int 100));
                           ("writeMBps", JNum (Dec "812.5"));
                           ("readMBps", JNum (Dec "1024.25"));
                           ("checksum", JNum (Int 251200)) ]);
                  ("disk",
                    JObj [ ("fileSizeMB", JNum (Int 10));
                           ("writeMBps", JNum (Dec "100.5"));
                           ("readMBps", JNum (Int 200));
                           ("bytesWritten", JNum (Int 10485760)) ]) ]);
         ("totalDurationMs", JNum (Int 9000));
         ("timestamp", JStr "2026-01-01T00:00:09.000Z") ].

Definition sample_process : Process := "/srv/backend".

(** A backend without storage configuration, and one whose uploads
    all fail. *)
Definition no_storage : Greenfield :=
  mkGreenfield None None None true (fun _ _ => true).

Definition failing_storage : Greenfield :=
  mkGreenfield (Some "infraproof") (Some "key") (Some "0x01") true
    (fun _ _ => false).

(** A backend whose uploads all go through. *)
Definition working_storage : Greenfield :=
  mkGreenfield (Some "infraproof") (Some "key") (Some "0x01") true
    (fun _ _ => true).

Definition sample_world : World := mkWorld ∅ sample_state.

Definition sample_request : Request :=
  mkRequest (Some 0) (Some sample_results)
    ["[2026-01-01T00:00:00.000Z] Starting execution for task 0 "]
    "2026-01-01T00:00:10.000Z" (mkEnv 2 1700000100).

(** A later transaction of another account. *)
Definition sample_submit_later (id : Z) : Tx :=
  mkTx (mkEnv 2 1700000100) (SubmitReceipt id sample_hash sample_hash).

(** A ledger whose task 0 has its receipt, and one whose task 0 was
    created by another account with another spec hash. *)
Definition completed_state : State :=
  (run init [sample_create sample_hash; sample_submit 0]).1.

Definition other_state : State :=
  (step init (mkTx (mkEnv 7 1700000050)
                (CreateTask (replicate 32 x02%byte)))).1.

(** The files of [sample_folder] under other names. *)
Definition renamed_folder : Folder :=
  <["b.txt" := File (toUtf8Bytes "{}")]>
    (<["a.txt" := File (toUtf8Bytes "ok")]> ∅).

Definition renamed_disk : Disk := {["copy" := renamed_folder]}.

(** A disk with a file of an earlier run in the directory of task 0,
    and one with the test file of an earlier disk test. *)
Definition stale_disk : Disk :=
  {[ @artifact_path sample_process 0 :=
       {[ "stale.txt" := File (toUtf8Bytes "old") ]} ]}.


End Samples.

(* ================================================================= *)
(** * Properties *)

(* ----------------------------------------------------------------- *)
(** ** The ledger contract *)

Section RegistryFacts.
Import Registry.

Lemma max_uint256_pos : 0 < MAX_UINT256.
Proof. unfold MAX_UINT256. lia. Qed.

(** At the last value of the counter the checked increment panics. *)
Lemma createTask_exhausted st env h :
  h <> zero32 -> nextTaskId st = MAX_UINT256 ->
  createTask st env h = Failed (Panic 17).
Proof.
  intros Hh Hn. unfold createTask.
  rewrite decide_False by done. by rewrite decide_True.
Qed.

Lemma valid_sender_nonzero a : valid_sender a -> a <> address0.
Proof. unfold valid_sender, address0. lia. Qed.

Lemma registry_inv_init : registry_inv init.
Proof.
  split; simpl.
  - pose proof max_uint256_pos. lia.
  - intros id. rewrite lookup_empty. split; [intros [? ?]; done | lia].
  - intros id t. by rewrite lookup_empty.
  - intros id r. by rewrite lookup_empty.
Qed.

Lemma createTask_inv st env h st' id logs :
  valid_sender (sender env) -> registry_inv st ->
  createTask st env h = Success st' id logs -> registry_inv st'.
Proof.
  intros Hs [Hc Ht Hr Hrc]. unfold createTask.
  repeat case_decide; try done. intros [= <- <- <-].
  split; simpl.
  - lia.
  - intros i. rewrite lookup_insert_is_Some, Ht. lia.
  - intros i t. rewrite lookup_insert. case_decide.
    + intros [= <-]. simpl. by apply valid_sender_nonzero.
    + apply Hr.
  - intros i r Hi. destruct (Hrc i r Hi) as [? ?]. split; [done|].
    rewrite lookup_insert_is_Some.
    destruct (decide (nextTaskId st = i)); [by left|by right].
Qed.

Lemma submitReceipt_inv st env id ah rh st' u logs :
  valid_sender (sender env) -> registry_inv st ->
  submitReceipt st env id ah rh = Success st' u logs -> registry_inv st'.
Proof.
  intros Hs [Hc Ht Hr Hrc]. unfold submitReceipt.
  repeat case_decide; try done. intros [= <- <-].
  split; simpl; try done.
  intros i r. rewrite lookup_insert. case_decide.
  - intros [= <-]. simpl. subst i. split; [by apply valid_sender_nonzero|].
    unfold tasks_at in *. destruct (tasks st !! id); [eauto|done].
  - apply Hrc.
Qed.

Lemma step_inv st tx :
  valid_tx tx -> registry_inv st -> registry_inv (step st tx).1.
Proof.
  intros Hv Hi. unfold step. destruct (tx_call tx) as [h|id ah rh].
  - destruct (createTask st (tx_env tx) h) eqn:E; simpl; [|done].
    eapply createTask_inv; eauto.
  - destruct (submitReceipt st (tx_env tx) id ah rh) eqn:E; simpl; [|done].
    eapply submitReceipt_inv; eauto.
Qed.

Lemma reachable_inv st : reachable st -> registry_inv st.
Proof.
  induction 1 as [|st tx _ IH Hv]; [apply registry_inv_init|].
  by apply step_inv.
Qed.

Lemma run_cons st tx txs :
  run st (tx :: txs) =
    ((run (step st tx).1 txs).1,
     (tx, (step st tx).2) :: (run (step st tx).1 txs).2).
Proof.
  simpl. destruct (step st tx) as [st1 r]. simpl.
  by destruct (run st1 txs).
Qed.

Lemma run_reachable st txs :
  reachable st -> Forall valid_tx txs -> reachable (run st txs).1.
Proof.
  intros Hr Hv. revert st Hr.
  induction Hv as [|tx txs Htx _ IH]; intros st Hr; [done|].
  rewrite run_cons. simpl. apply IH. by constructor.
Qed.

(** A task exists exactly for the ids the counter has passed, and then
    its requester is an account. *)
Lemma task_exists_requester st id :
  registry_inv st ->
  (task_exists st id <-> requester (tasks_at st id) <> address0).
Proof.
  intros Hi. unfold task_exists, tasks_at.
  destruct (tasks st !! id) as [t|] eqn:E; simpl.
  - split; [intros _; by eapply inv_requester|eauto].
  - split; [intros [? ?]; done|done].
Qed.

Lemma receipt_exists_operator st id :
  registry_inv st ->
  (receipt_exists st id <-> operator (receipts_at st id) <> address0).
Proof.
  intros Hi. unfold receipt_exists, receipts_at.
  destruct (receipts st !! id) as [r|] eqn:E; simpl.
  - split; [intros _; by eapply inv_receipts|eauto].
  - split; [intros [? ?]; done|done].
Qed.

End RegistryFacts.

Section RegistryTraces.
Import Registry.

Lemma step_counter_mono st tx : nextTaskId st <= nextTaskId (step st tx).1.
Proof.
  unfold step, createTask, submitReceipt.
  destruct (tx_call tx); repeat case_decide; simpl; lia.
Qed.

Lemma step_tasks_stable st tx id :
  id < nextTaskId st -> tasks (step st tx).1 !! id = tasks st !! id.
Proof.
  intros Hid. unfold step, createTask, submitReceipt.
  destruct (tx_call tx); repeat case_decide; simpl; try done.
  apply lookup_insert_ne. lia.
Qed.

Lemma run_counter_mono st txs : nextTaskId st <= nextTaskId (run st txs).1.
Proof.
  revert st. induction txs as [|tx txs IH]; intros st; [simpl; lia|].
  rewrite run_cons. simpl. pose proof (step_counter_mono st tx).
  specialize (IH (step st tx).1). lia.
Qed.

Lemma run_tasks_stable st txs id :
  id < nextTaskId st -> tasks (run st txs).1 !! id = tasks st !! id.
Proof.
  revert st. induction txs as [|tx txs IH]; intros st Hid; [done|].
  rewrite run_cons. simpl. rewrite IH.
  - by apply step_tasks_stable.
  - pose proof (step_counter_mono st tx). lia.
Qed.

(** What one transaction does to the counter. *)
Lemma step_created st tx :
  match (step st tx).2 with
  | Created id =>
      id = nextTaskId st /\ nextTaskId (step st tx).1 = nextTaskId st + 1
  | _ => nextTaskId (step st tx).1 = nextTaskId st
  end.
Proof.
  unfold step, createTask, submitReceipt.
  destruct (tx_call tx); repeat case_decide; simpl; auto.
Qed.

(** The ids created along a run are the counter values it went through. *)
Lemma run_created_ids st txs :
  created_ids (run st txs).2 =
    seqZ (nextTaskId st) (nextTaskId (run st txs).1 - nextTaskId st).
Proof.
  revert st. induction txs as [|tx txs IH]; intros st.
  - simpl. by rewrite Z.sub_diag.
  - rewrite run_cons. simpl.
    pose proof (run_counter_mono (step st tx).1 txs) as Hmono.
    pose proof (step_created st tx) as Hstep.
    rewrite IH. destruct (step st tx).2 as [id| |f].
    + destruct Hstep as [-> Hn]. rewrite Hn in *.
      rewrite (seqZ_cons (nextTaskId st)) by lia.
      f_equal. f_equal; lia.
    + by rewrite Hstep.
    + by rewrite Hstep.
Qed.

Lemma step_receipts_stable st tx id :
  operator (receipts_at st id) <> address0 ->
  receipts (step st tx).1 !! id = receipts st !! id.
Proof.
  intros Hop. unfold step, createTask, submitReceipt.
  destruct (tx_call tx) as [h|id' ah rh]; repeat case_decide; simpl;
    try done.
  apply lookup_insert_ne. intros ->. done.
Qed.

Lemma run_receipts_stable st txs id :
  operator (receipts_at st id) <> address0 ->
  receipts (run st txs).1 !! id = receipts st !! id.
Proof.
  revert st. induction txs as [|tx txs IH]; intros st Hop; [done|].
  rewrite run_cons. simpl.
  pose proof (step_receipts_stable st tx id Hop) as Hs.
  rewrite IH; [done|]. unfold receipts_at in *. by rewrite Hs.
Qed.

(** One transaction stores a receipt for [id] exactly when it is a
    successful [submitReceipt] for [id]. *)
Lemma step_receipt_submitted st tx id :
  is_Some (receipts (step st tx).1 !! id) <->
  is_Some (receipts st !! id) \/
  submitted_for id (tx, (step st tx).2) = true.
Proof.
  unfold submitted_for, step, createTask, submitReceipt. simpl.
  destruct (tx_call tx) as [h|id' ah rh]; repeat case_decide; simpl;
    try (split; [by left|by intros [?|?]]).
  - rewrite lookup_insert_is_Some. split; [by right|by left].
  - rewrite lookup_insert_is_Some. split.
    + intros [?|[_ ?]]; [done|by left].
    + intros [?|?]; [by right|done].
Qed.

Lemma run_receipt_submitted st txs id :
  is_Some (receipts (run st txs).1 !! id) <->
  is_Some (receipts st !! id) \/
  receipt_submitted (run st txs).2 id = true.
Proof.
  revert st. induction txs as [|tx txs IH]; intros st.
  - simpl. split; [by left|by intros [?|?]].
  - rewrite run_cons. unfold receipt_submitted in *. simpl.
    rewrite IH, step_receipt_submitted, orb_true_iff. tauto.
Qed.

End RegistryTraces.

Section EncodingFacts.
Import Wrapper.

Lemma to_uint256_Some (n : Z) :
  0 <= n <= MAX_SAFE_INTEGER -> to_uint256 n = Some n.
Proof.
  intros Hn. unfold to_uint256.
  destruct (n <? 0) eqn:E1; [apply Z.ltb_lt in E1; lia|].
  destruct (MAX_SAFE_INTEGER <? n) eqn:E2; [apply Z.ltb_lt in E2; lia|].
  done.
Qed.

Lemma to_uint256_None (n : Z) :
  MAX_SAFE_INTEGER < n -> to_uint256 n = None.
Proof.
  intros Hn. unfold to_uint256.
  destruct (MAX_SAFE_INTEGER <? n) eqn:E2; [|apply Z.ltb_ge in E2; lia].
  by rewrite orb_true_r.
Qed.

End EncodingFacts.

Section RegistryClaims.
Import Registry.

(** C5.  For a spec hash other than the zero digest, [createTask]
    succeeds (while the [uint256] counter is below its maximum, where
    the checked [nextTaskId++] cannot overflow), returns the counter
    as task id, and [getTask] of that id then shows the given spec
    hash and the caller as requester.  For the zero digest it fails
    with the validation error "Spec hash cannot be zero" and the
    storage stays as it was: no task, same counter. *)
Theorem createTask_getTask (st : State) (env : Env) (h : bytes32) :
  (h <> zero32 -> nextTaskId st < MAX_UINT256 ->
   exists st',
     createTask st env h =
       Success st' (nextTaskId st)
         [TaskCreated (nextTaskId st) (sender env) h] /\
     specHash (Client.getTask st' (nextTaskId st)) = h /\
     requester (Client.getTask st' (nextTaskId st)) = sender env) /\
  (fails_with (createTask st env zero32) ValidationError
     "Spec hash cannot be zero" /\
   (step st (mkTx env (CreateTask zero32))).1 = st).
Proof.
  split.
  - intros Hh Hn. unfold createTask.
    rewrite decide_False by done. rewrite decide_False by lia.
    eexists. split; [reflexivity|].
    unfold Client.getTask, tasks_at. simpl.
    by rewrite lookup_insert_eq.
  - unfold fails_with, step, createTask. simpl. done.
Qed.

Lemma createTask_getTask_witness :
  exists st',
    createTask init sample_env sample_hash =
      Success st' 0 [TaskCreated 0 1 sample_hash] /\
    specHash (Client.getTask st' 0) = sample_hash /\
    requester (Client.getTask st' 0) = 1.
Proof.
  apply (proj1 (createTask_getTask init sample_env sample_hash)).
  - discriminate.
  - reflexivity.
Defined.

(** C6.  Along any run from the deployed contract, the i-th successful
    [createTask] returns the id i: ids start at 0 and grow by one, so
    no two tasks share an id; and the task stored under an id that was
    handed out is the same after whatever transactions follow. *)
Theorem task_ids_sequential (txs : list Tx) :
  (forall (i : nat) (id : Z),
      created_ids (run init txs).2 !! i = Some id -> id = Z.of_nat i) /\
  NoDup (created_ids (run init txs).2) /\
  (forall (id : Z) (txs' : list Tx),
      id ∈ created_ids (run init txs).2 ->
      tasks_at (run (run init txs).1 txs').1 id
      = tasks_at (run init txs).1 id).
Proof.
  rewrite run_created_ids. simpl. rewrite Z.sub_0_r.
  split; [|split].
  - intros i id Hi. apply lookup_seqZ in Hi. lia.
  - apply NoDup_seqZ.
  - intros id txs' Hin. apply elem_of_seqZ in Hin. unfold tasks_at.
    rewrite run_tasks_stable; [done|lia].
Qed.

Lemma task_ids_sequential_witness :
  created_ids (run init [sample_create sample_hash;
                         sample_create sample_hash]).2 = [0; 1] /\
  tasks_at (run (run init [sample_create sample_hash;
                           sample_create sample_hash]).1
              [sample_create sample_hash]).1 1 =
  tasks_at (run init [sample_create sample_hash;
                      sample_create sample_hash]).1 1.
Proof.
  split; [reflexivity|].
  apply (task_ids_sequential
           [sample_create sample_hash; sample_create sample_hash]).
  vm_compute. right. left.
Defined.

(** C3.  In a reachable state, [submitReceipt] fails with NotFoundError
    ("Task does not exist") when the task does not exist; with
    ConflictError ("Receipt already submitted") when a receipt exists;
    with ValidationError when the task exists, no receipt does and one
    of the hashes is the zero digest (the checks are made in this
    order); it succeeds exactly when none of these holds, and then the
    receipt is stored.  After a successful submission by an account,
    whatever transactions follow, a further [submitReceipt] for the
    same id by any caller fails with ConflictError and the stored
    receipt is the first one. *)
Theorem submitReceipt_outcomes (st : State) (env : Env) (id : Z)
    (ah rh : bytes32) :
  reachable st ->
  (~ task_exists st id ->
   fails_with (submitReceipt st env id ah rh) NotFoundError
     "Task does not exist") /\
  (receipt_exists st id ->
   fails_with (submitReceipt st env id ah rh) ConflictError
     "Receipt already submitted") /\
  (task_exists st id -> ~ receipt_exists st id ->
   ah = zero32 \/ rh = zero32 ->
   fails_with (submitReceipt st env id ah rh) ValidationError
     (if decide (ah = zero32) then "Artifact hash cannot be zero"
      else "Result hash cannot be zero")) /\
  ((exists st' logs, submitReceipt st env id ah rh = Success st' tt logs) <->
   task_exists st id /\ ~ receipt_exists st id /\
   ah <> zero32 /\ rh <> zero32) /\
  (forall st' logs,
      submitReceipt st env id ah rh = Success st' tt logs ->
      receipts st' !! id =
        Some (mkReceipt (sender env) ah rh (timestamp env)) /\
      (valid_sender (sender env) ->
       forall (txs : list Tx) (env2 : Env) (ah2 rh2 : bytes32),
         fails_with (submitReceipt (run st' txs).1 env2 id ah2 rh2)
           ConflictError "Receipt already submitted" /\
         receipts
           (step (run st' txs).1 (mkTx env2 (SubmitReceipt id ah2 rh2))).1
           !! id =
         Some (mkReceipt (sender env) ah rh (timestamp env)))).
Proof.
  intros Hreach. pose proof (reachable_inv st Hreach) as Hinv.
  pose proof (task_exists_requester st id Hinv) as Ht.
  pose proof (receipt_exists_operator st id Hinv) as Hr.
  assert (Hrt : receipt_exists st id -> task_exists st id).
  { intros [r Hsome]. by eapply inv_receipts. }
  unfold fails_with, submitReceipt.
  split; [|split; [|split; [|split]]].
  - intros Hno. rewrite decide_True; [done|].
    destruct (decide (requester (tasks_at st id) = address0)); [done|].
    exfalso. apply Hno, Ht. done.
  - intros Hex. rewrite decide_False by (by apply Ht, Hrt).
    rewrite (decide_True (P := operator _ <> _)) by (by apply Hr). done.
  - intros Hex Hno Hz. rewrite decide_False by (by apply Ht).
    rewrite (decide_False (P := operator _ <> _))
      by (intros Hne; by apply Hno, Hr).
    destruct (decide (ah = zero32)); [done|].
    destruct Hz as [?|Hz]; [done|]. by rewrite decide_True.
  - split.
    + intros (st' & logs & Heq). revert Heq.
      repeat case_decide; try done. intros _.
      repeat split; try done.
      * by apply Ht.
      * intros Hex. by apply Hr in Hex.
    + intros (Hex & Hno & Ha & Hb).
      rewrite decide_False by (by apply Ht).
      rewrite (decide_False (P := operator _ <> _))
        by (intros Hne; by apply Hno, Hr).
      rewrite !decide_False by done. eauto.
  - intros st' logs. repeat case_decide; try done.
    intros [= <- <-]. simpl. rewrite lookup_insert_eq. split; [done|].
    intros Hv txs env2 ah2 rh2.
    set (st' := mkState _ _ _).
    assert (Hop : operator (receipts_at st' id) <> address0).
    { unfold receipts_at, st'. simpl. rewrite lookup_insert_eq. simpl.
      by apply valid_sender_nonzero. }
    assert (Htk : tasks (run st' txs).1 !! id = tasks st !! id).
    { rewrite run_tasks_stable; [done|]. simpl.
      assert (is_Some (tasks st !! id)) as Hs by (by apply Ht).
      apply Hinv in Hs. lia. }
    assert (Hrc : receipts (run st' txs).1 !! id =
                  Some (mkReceipt (sender env) ah rh (timestamp env))).
    { rewrite run_receipts_stable by done.
      unfold st'. simpl. by rewrite lookup_insert_eq. }
    split.
    + unfold tasks_at, receipts_at. rewrite Htk, Hrc. simpl.
      fold (tasks_at st id). rewrite decide_False by done.
      rewrite decide_True by (by apply valid_sender_nonzero). done.
    + rewrite step_receipts_stable; [done|].
      unfold receipts_at. rewrite Hrc. simpl.
      by apply valid_sender_nonzero.
Qed.

Lemma sample_create_valid h : valid_tx (sample_create h).
Proof. vm_compute. split; [reflexivity|discriminate]. Defined.

Lemma sample_state_reachable : reachable sample_state.
Proof.
  apply reachable_step; [apply reachable_init|apply sample_create_valid].
Defined.

Lemma submitReceipt_outcomes_witness :
  reachable sample_state /\
  ((exists st' logs,
       submitReceipt sample_state sample_env 0 sample_hash sample_hash =
         Success st' tt logs) <->
   task_exists sample_state 0 /\ ~ receipt_exists sample_state 0 /\
   sample_hash <> zero32 /\ sample_hash <> zero32).
Proof.
  split; [apply sample_state_reachable|].
  apply (submitReceipt_outcomes sample_state sample_env 0
           sample_hash sample_hash sample_state_reachable).
Defined.

End RegistryClaims.

Section StatusClaims.
Import Ethers Registry Wrapper Tasks.

(** C10.  After any run of transactions sent by accounts, every stored
    receipt has an operator other than [address(0)].  So, for a task id
    that the backend can hand to the contract (a Number from 0 to
    2^53 - 1), [getReceipt] returns, and returns [null] exactly when no
    [submitReceipt] for the id has succeeded; the task status route
    reports a status for every existing task, and that status is PENDING
    exactly when no receipt was submitted and COMPLETED exactly when
    one was. *)
Theorem getReceipt_null_iff_not_submitted (txs : list Tx) (id : Z) :
  Forall valid_tx txs ->
  0 <= id <= MAX_SAFE_INTEGER ->
  (forall r, receipts (run init txs).1 !! id = Some r ->
             operator r <> address0) /\
  (exists answer : option Receipt,
      Wrapper.getReceipt (run init txs).1 id = Some answer /\
      (answer = None <-> receipt_submitted (run init txs).2 id = false)) /\
  (forall param : string,
      parseInt param = Some id ->
      (task_exists (run init txs).1 id ->
       exists task status receipt,
         task_route (run init txs).1 param
         = TaskStatus id task status receipt) /\
      (forall taskId task status receipt,
          task_route (run init txs).1 param
          = TaskStatus taskId task status receipt ->
          taskId = id /\
          (status = Client.PENDING <->
           receipt_submitted (run init txs).2 id = false) /\
          (status = Client.COMPLETED <->
           receipt_submitted (run init txs).2 id = true) /\
          (receipt = None <->
           receipt_submitted (run init txs).2 id = false))).
Proof.
  intros Hv Hid.
  pose proof (reachable_inv _ (run_reachable init txs reachable_init Hv))
    as Hinv.
  pose proof (receipt_exists_operator _ id Hinv) as Hop.
  pose proof (run_receipt_submitted init txs id) as Hsub.
  simpl in Hsub. rewrite lookup_empty in Hsub.
  fold (receipt_exists (run init txs).1 id) in Hsub.
  assert (Hcall : exists answer : option Receipt,
             Wrapper.getReceipt (run init txs).1 id = Some answer /\
             (answer = None <->
              receipt_submitted (run init txs).2 id = false)).
  { unfold Wrapper.getReceipt. rewrite to_uint256_Some by done.
    cbn [mbind option_bind].
    destruct (receipt_submitted (run init txs).2 id).
    - rewrite decide_False by (apply Hop, Hsub; by right).
      eexists. split; [reflexivity|]. done.
    - destruct (decide (operator (receipts_at (run init txs).1 id)
                        = address0)) as [|Hne].
      + eexists. split; [reflexivity|]. done.
      + apply Hop, Hsub in Hne. destruct Hne as [[? ?]|?]; done. }
  split; [|split; [exact Hcall|]].
  - intros r Hr. by eapply inv_receipts.
  - destruct Hcall as (answer & Hcall & Hanswer).
    intros param Hparse. unfold task_route. rewrite Hparse.
    destruct (id <? 0) eqn:E; [apply Z.ltb_lt in E; lia|].
    unfold Wrapper.getTask. rewrite to_uint256_Some by done.
    cbn [mbind option_bind requester]. rewrite Hcall. split.
    + intros Hex.
      rewrite decide_False by (by apply task_exists_requester). eauto.
    + intros taskId task status receipt.
      case_decide; [done|]. intros [= <- <- <- <-].
      split; [done|].
      assert (Hs : receipt_submitted (run init txs).2 id
                   = if answer is Some _ then true else false).
      { destruct answer, (receipt_submitted (run init txs).2 id);
          try done.
        - destruct Hanswer as [_ Hn]. by specialize (Hn eq_refl).
        - destruct Hanswer as [Hn _]. by specialize (Hn eq_refl). }
      rewrite Hs. destruct answer; split_and!; split; done.
Qed.

Lemma getReceipt_null_iff_not_submitted_witness :
  (exists task receipt,
      task_route (run init [sample_create sample_hash; sample_submit 0]).1 "0"
      = TaskStatus 0 task Client.COMPLETED (Some receipt)) /\
  receipt_submitted
    (run init [sample_create sample_hash; sample_submit 0]).2 0 = true.
Proof.
  assert (Hv : Forall valid_tx
                 [sample_create sample_hash; sample_submit 0]).
  { constructor; [apply sample_create_valid|].
    constructor; [|constructor].
    vm_compute. split; [reflexivity|discriminate]. }
  assert (Hid : 0 <= 0 <= MAX_SAFE_INTEGER) by (split; discriminate).
  destruct (getReceipt_null_iff_not_submitted _ 0 Hv Hid)
    as (_ & _ & Hroute).
  destruct (Hroute "0" eq_refl) as [_ Hs].
  destruct (Hs 0 _ _ _ eq_refl) as (_ & _ & Hc & _).
  split; [|by apply Hc]. eexists _, _. reflexivity.
Defined.

End StatusClaims.

(* ----------------------------------------------------------------- *)
(** ** Hex strings *)

Section HexFacts.
Import Ethers.

Lemma string_app_assoc (a b c : string) : (a +:+ b) +:+ c = a +:+ (b +:+ c).
Proof. induction a as [|x a IH]; simpl; [done|]. unfold String.app in *. simpl. by rewrite IH. Qed.

Lemma string_app_nil_r (a : string) : a +:+ "" = a.
Proof. induction a as [|x a IH]; [done|]. unfold String.app in *. simpl. by rewrite IH. Qed.

Lemma parse_hexlify_byte (b : byte) :
  parse_byte (hex_digit (Byte.to_N b / 16)) (hex_digit (Byte.to_N b mod 16))
  = Some b.
Proof. destruct b; reflexivity. Qed.

Lemma hex_digits_app (a b : list byte) :
  hex_digits (a ++ b) = hex_digits a +:+ hex_digits b.
Proof.
  induction a as [|x a IH]; [done|]. simpl. unfold hexlify_byte.
  by rewrite IH.
Qed.

(** Decoding the digits of a byte string gives the byte string back. *)
Lemma parse_hex_digits_hex_digits (bs : list byte) :
  parse_hex_digits (hex_digits bs) = Some bs.
Proof.
  induction bs as [|b bs IH]; [done|]. simpl.
  rewrite parse_hexlify_byte. simpl. by rewrite IH.
Qed.

Lemma getBytes_hexlify (bs : list byte) :
  getBytes (HexString ("0x" +:+ hex_digits bs)) = Some bs.
Proof. simpl. apply parse_hex_digits_hex_digits. Qed.

Lemma slice_hexlify (bs : list byte) : slice 2 (hexlify bs) = hex_digits bs.
Proof. reflexivity. Qed.

Lemma hex_digits_nil_iff (bs : list byte) : hex_digits bs = "" <-> bs = [].
Proof. destruct bs; simpl; [done|]. unfold hexlify_byte. split; discriminate. Qed.

Lemma keccak256_Bytes `{Keccak} (bs : list byte) :
  keccak256 (Bytes bs) = Some (hexlify (keccak256_bytes bs)).
Proof. reflexivity. Qed.

Lemma keccak256_hex_digits `{Keccak} (bs : list byte) :
  keccak256 (HexString ("0x" +:+ hex_digits bs))
  = Some (hexlify (keccak256_bytes bs)).
Proof. unfold keccak256. by rewrite getBytes_hexlify. Qed.

End HexFacts.

(* ----------------------------------------------------------------- *)
(** ** The artifact hash *)

Section HashFolder.
Import Ethers JSON FS Hash.
Context `{Keccak}.

(** Sorting forgets the order in which the names were listed. *)
Lemma sort_permutation (l1 l2 : list string) : l1 ≡ₚ l2 -> sort l1 = sort l2.
Proof.
  intros Hp. unfold sort.
  apply (Sorted_unique String.le); try apply Sorted_merge_sort; try apply _.
  by rewrite !merge_sort_Permutation.
Qed.

Lemma sort_elem_of (l : list string) (x : string) : x ∈ sort l <-> x ∈ l.
Proof. unfold sort. by rewrite merge_sort_Permutation. Qed.

Lemma regular_files_cons (folder : Folder) (name : string) (names : list string) :
  regular_files folder (name :: names) =
    match folder !! name with
    | Some (File content) => content :: regular_files folder names
    | _ => regular_files folder names
    end.
Proof.
  unfold regular_files. simpl.
  by destruct (folder !! name) as [[c|]|].
Qed.

(** The loop appends the digits of the hashes of the regular files. *)
Lemma hash_files_spec (disk : Disk) (path : string) (folder : Folder)
    (names : list string) (acc : string) :
  disk !! path = Some folder ->
  (forall n, n ∈ names -> is_Some (folder !! n)) ->
  hash_files disk path names acc =
    Some (acc +:+ hex_digits
                    (concat (map keccak256_bytes (regular_files folder names)))).
Proof.
  intros Hd. revert acc.
  induction names as [|name names IH]; intros acc Hin.
  - simpl. by rewrite string_app_nil_r.
  - destruct (Hin name) as [e He]; [by left|].
    rewrite regular_files_cons, He.
    cbn [hash_files]. unfold readFile, stat. rewrite Hd. simpl. rewrite He.
    destruct e as [content|]; simpl.
    + rewrite IH by (intros n Hn; apply Hin; by right).
      rewrite hex_digits_app, string_app_assoc. done.
    + apply IH. intros n Hn. apply Hin. by right.
Qed.

(** The hash of a directory is the digest of its content, whatever the
    order in which [readdir] lists it. *)
Lemma hashArtifactFolder_digest `{Readdir} `{!ReaddirSpec}
    (disk : Disk) (path : string) (folder : Folder) :
  disk !! path = Some folder ->
  hashArtifactFolder disk path = Some (hexlify (artifact_digest folder)).
Proof.
  intros Hd. unfold hashArtifactFolder, readdir. rewrite Hd. simpl.
  rewrite (sort_permutation _ _ (readdir_perm folder)).
  rewrite (hash_files_spec disk path folder) by
    (try done; intros n Hn; apply (proj1 (sort_elem_of _ _)) in Hn;
     apply list_elem_of_fmap in Hn as [[k e] [-> Hk]];
     apply elem_of_map_to_list in Hk; simpl; eauto).
  simpl. unfold artifact_digest.
  set (bs := concat _).
  case_decide as Hempty.
  - apply hex_digits_nil_iff in Hempty. by rewrite Hempty.
  - apply keccak256_hex_digits.
Qed.

End HashFolder.

Section HashFolderClaims.
Import Ethers JSON FS Hash.

(** C4.  For a directory read in any order, [hashArtifactFolder] is the
    hex string of: the names sorted, each regular file hashed and the
    others skipped, the hashes concatenated in that order, the
    concatenation hashed.  With no regular file, and so for an empty
    directory, it is the hash of the empty byte string.  The result
    depends on the names and contents alone: the same directory hashed
    again, elsewhere or listed in another order, has the same hash. *)
Theorem hashArtifactFolder_spec `{Keccak} `{Readdir} `{!ReaddirSpec}
    (disk : Disk) (path : string) (folder : Folder) :
  disk !! path = Some folder ->
  hashArtifactFolder disk path = Some (hexlify (artifact_digest folder)) /\
  (regular_files folder (sort (map_to_list folder).*1) = [] ->
   hashArtifactFolder disk path = Some (hexlify (keccak256_bytes []))) /\
  (folder = ∅ ->
   hashArtifactFolder disk path = Some (hexlify (keccak256_bytes []))) /\
  (forall (R' : Readdir) (_ : @ReaddirSpec R') (disk' : Disk) (path' : string),
      disk' !! path' = Some folder ->
      @hashArtifactFolder _ R' disk' path' = hashArtifactFolder disk path).
Proof.
  assert (Hmain : forall (R' : Readdir) (_ : @ReaddirSpec R') disk' path',
             disk' !! path' = Some folder ->
             @hashArtifactFolder _ R' disk' path'
             = Some (hexlify (artifact_digest folder))).
  { intros R' HR' disk' path' Hd. by apply hashArtifactFolder_digest. }
  intros Hd. split; [by apply Hmain|].
  assert (Hnone : regular_files folder (sort (map_to_list folder).*1) = [] ->
                  hashArtifactFolder disk path
                  = Some (hexlify (keccak256_bytes []))).
  { intros Hnil. rewrite (Hmain _ _ disk path Hd).
    unfold artifact_digest. by rewrite Hnil. }
  split; [done|]. split.
  - intros ->. apply Hnone. by rewrite map_to_list_empty.
  - intros R' HR' disk' path' Hd'.
    by rewrite (Hmain _ _ disk' path' Hd'), (Hmain _ _ disk path Hd).
Qed.

Lemma sample_readdir_spec : @ReaddirSpec sample_readdir.
Proof. intros f. reflexivity. Defined.

Lemma hashArtifactFolder_spec_witness :
  @hashArtifactFolder sample_keccak sample_readdir sample_disk
    "artifacts/task-0"
  = Some (hexlify (@artifact_digest sample_keccak sample_folder)).
Proof.
  refine (proj1 (@hashArtifactFolder_spec sample_keccak sample_readdir
                   sample_readdir_spec sample_disk "artifacts/task-0"
                   sample_folder _)).
  reflexivity.
Defined.

End HashFolderClaims.

(* ----------------------------------------------------------------- *)
(** ** The hash of a task specification *)

Section HashJSON.
Import Ethers JSON Hash.

(** The property list that [hashJSON] hands to [JSON.stringify] for a
    task specification: its four top-level keys, sorted. *)
Lemma taskSpec_keys (t : TaskSpec) :
  sort (Object_keys (taskSpec_object t))
  = ["config"; "createdAt"; "duration"; "type"].
Proof. reflexivity. Qed.

(** Under that property list the nested [config] object prints as an
    object without members, whatever it holds: none of its keys is in
    the list. *)
Lemma config_serialized_empty (c : Config) :
  serialize (Some ["config"; "createdAt"; "duration"; "type"]) "" ""
    (JObj [ ("cpuDurationMs", JNum (cpuDurationMs c));
            ("memorySizeMB", JNum (memorySizeMB c));
            ("diskSizeMB", JNum (diskSizeMB c)) ])
  = "{}".
Proof. reflexivity. Qed.

(** The text that is hashed holds the type, the duration and the
    creation time of the specification, and nothing of its config. *)
Lemma taskSpec_sortedJSON (t : TaskSpec) :
  stringify (JObj (taskSpec_object t))
    (Some (sort (Object_keys (taskSpec_object t)))) 0
  = "{" +:+ String.concat ","
               [ member "" ("config", "{}");
                 member "" ("createdAt", quote (createdAt t));
                 member "" ("duration", num_to_string (duration t));
                 member "" ("type", quote (type t)) ]
    +:+ "}".
Proof. reflexivity. Qed.

Lemma hashJSON_ignores_config `{Keccak} (t1 t2 : TaskSpec) :
  type t1 = type t2 -> duration t1 = duration t2 ->
  createdAt t1 = createdAt t2 ->
  hashJSON (taskSpec_object t1) = hashJSON (taskSpec_object t2).
Proof.
  intros Ht Hd Hc. unfold hashJSON.
  by rewrite !taskSpec_sortedJSON, Ht, Hd, Hc.
Qed.

(** C2.  [hashJSON] does not tell apart two task specifications that
    differ in a nested config value: one with memorySizeMB 100 and one
    with memorySizeMB 200, equal otherwise, are serialised to the same
    text and so have the same hash, whatever the digest function. *)
Theorem hashJSON_same_for_different_config :
  memorySizeMB (config spec_100MB) <> memorySizeMB (config spec_200MB) /\
  stringify (JObj (taskSpec_object spec_100MB))
    (Some (sort (Object_keys (taskSpec_object spec_100MB)))) 0
  = stringify (JObj (taskSpec_object spec_200MB))
      (Some (sort (Object_keys (taskSpec_object spec_200MB)))) 0 /\
  (forall K : Keccak,
      @hashJSON K (taskSpec_object spec_100MB)
      = @hashJSON K (taskSpec_object spec_200MB)).
Proof.
  split; [discriminate|]. split; [reflexivity|].
  intros K. by apply hashJSON_ignores_config.
Qed.

End HashJSON.

(* ----------------------------------------------------------------- *)
(** ** The memory phase *)

Section MemoryFacts.
Import Benchmark.

Lemma round_double_small (x : Z) : Z.abs x < 2 ^ 53 -> round_double x = x.
Proof.
  intros Hx. unfold round_double, TWO_53.
  destruct (Z.abs x <? _) eqn:E; [done|]. apply Z.ltb_ge in E. lia.
Qed.

(** In [2^53, 2^54) the doubles are the even integers. *)
Lemma round_double_even (x : Z) :
  0 <= x < 2 ^ 54 -> Z.even x = true -> round_double x = x.
Proof.
  intros Hx Heven.
  destruct (decide (x < 2 ^ 53)) as [Hs|Hl];
    [apply round_double_small; lia|].
  unfold round_double, TWO_53. rewrite Z.abs_eq by lia.
  destruct (x <? _) eqn:E; [apply Z.ltb_lt in E; lia|].
  assert (Hlog : Z.log2 x = 53) by (apply Z.log2_unique; lia).
  rewrite Hlog. change (53 - 52) with 1.
  rewrite Z.shiftr_div_pow2, Z.land_ones by lia.
  change (Z.shiftl 1 (1 - 1)) with 1. change (2 ^ 1) with 2.
  assert (Hmod : x mod 2 = 0).
  { apply Z.even_spec in Heven as [k ->].
    rewrite Z.mul_comm. apply Z.mod_mul. lia. }
  rewrite Hmod. change (0 <? 1) with true. cbv iota.
  rewrite Z.sgn_pos, Z.shiftl_mul_pow2 by lia. change (2 ^ 1) with 2.
  pose proof (Z.div_mod x 2 ltac:(lia)). lia.
Qed.

(** Rounding keeps an integer of 2^53 or more at 2^53 or more. *)
Lemma round_double_large (x : Z) : 2 ^ 53 <= x -> 2 ^ 53 <= round_double x.
Proof.
  intros Hx. unfold round_double, TWO_53. rewrite Z.abs_eq by lia.
  destruct (x <? _) eqn:E; [apply Z.ltb_lt in E; lia|].
  assert (Hlog : 53 <= Z.log2 x) by (apply Z.log2_le_pow2; lia).
  set (e := Z.log2 x - 52).
  assert (He : 1 <= e) by (unfold e; lia).
  assert (Hq : 2 ^ 52 <= Z.shiftr x e).
  { rewrite Z.shiftr_div_pow2 by lia.
    apply Z.div_le_lower_bound; [apply Z.pow_pos_nonneg; lia|].
    rewrite <- Z.pow_add_r by lia.
    replace (e + 52) with (Z.log2 x) by (unfold e; lia).
    apply Z.log2_spec. lia. }
  rewrite Z.sgn_pos, Z.mul_1_l, Z.shiftl_mul_pow2 by lia.
  assert (Hpow : 2 <= 2 ^ e).
  { change 2 with (2 ^ 1) at 1. apply Z.pow_le_mono_r; lia. }
  set (q := Z.shiftr x e) in *.
  assert (Hq' : q <= (if Z.land x (Z.ones e) <? Z.shiftl 1 (e - 1) then q
                      else if Z.shiftl 1 (e - 1) <? Z.land x (Z.ones e)
                           then q + 1
                           else if Z.even q then q else q + 1)).
  { repeat match goal with |- context [if ?b then _ else _] => destruct b end;
      lia. }
  nia.
Qed.

Lemma round_double_opp (x : Z) : round_double (- x) = - round_double x.
Proof.
  unfold round_double. rewrite Z.abs_opp, Z.sgn_opp.
  destruct (Z.abs x <? TWO_53); lia.
Qed.

Lemma round_double_small_neg (x : Z) :
  x <= - 2 ^ 53 -> round_double x <= - 2 ^ 53.
Proof.
  intros Hx. replace x with (- (- x)) by lia. rewrite round_double_opp.
  pose proof (round_double_large (- x) ltac:(lia)). lia.
Qed.

Lemma num_add_small (a b : Z) : Z.abs (a + b) < 2 ^ 53 -> num_add a b = a + b.
Proof. apply round_double_small. Qed.

Lemma num_mul_small (a b : Z) : Z.abs (a * b) < 2 ^ 53 -> num_mul a b = a * b.
Proof. apply round_double_small. Qed.

(** A counting loop with enough fuel folds its body over the indices. *)
Lemma for_loop_foldl {St : Type} (body : Z -> St -> St) (k : nat) :
  forall (fuel : nat) (i : Z) (s : St),
    (k <= fuel)%nat -> 0 <= i -> i + Z.of_nat k < 2 ^ 53 ->
    for_loop fuel i (i + Z.of_nat k) body s
    = Some (foldl (fun s j => body j s) s (seqZ i (Z.of_nat k))).
Proof.
  induction k as [|k IH]; intros fuel i s Hfuel Hi Hk.
  - rewrite Z.add_0_r. destruct fuel; simpl; by rewrite Z.ltb_irrefl.
  - destruct fuel as [|fuel]; [lia|]. simpl for_loop.
    destruct (i <? i + Z.of_nat (S k)) eqn:E; [|apply Z.ltb_ge in E; lia].
    rewrite num_add_small by lia.
    replace (i + Z.of_nat (S k)) with ((i + 1) + Z.of_nat k) by lia.
    rewrite IH by lia.
    rewrite (seqZ_cons i (Z.of_nat (S k))) by lia.
    simpl. do 3 f_equal; lia.
Qed.

(** The write pass fills the slots with the doubles of their indices. *)
Lemma write_pass_foldl (k : nat) :
  forall (pre : list (option Z)),
    Z.of_nat (length pre) + Z.of_nat k < 2 ^ 52 ->
    foldl (fun a j => write_slot j a) (pre ++ replicate k None)
      (seqZ (Z.of_nat (length pre)) (Z.of_nat k))
    = pre ++ ((fun j => Some (2 * j)) <$> seqZ (Z.of_nat (length pre)) (Z.of_nat k)).
Proof.
  induction k as [|k IH]; intros pre Hlen.
  - done.
  - rewrite (seqZ_cons _ (Z.of_nat (S k))) by lia.
    simpl foldl. unfold write_slot at 2.
    rewrite Nat2Z.id, num_mul_small by lia.
    change (replicate (S k) None) with ((@None Z) :: replicate k None).
    rewrite insert_app_r_alt, Nat.sub_diag by lia. simpl.
    replace (Z.pred (Z.of_nat (S k))) with (Z.of_nat k) by lia.
    replace (Z.succ (Z.of_nat (length pre)))
      with (Z.of_nat (length (pre ++ [Some (Z.of_nat (length pre) * 2)])))
      by (rewrite length_app; simpl; lia).
    rewrite (cons_middle _ pre), app_assoc, IH
      by (rewrite length_app; simpl; lia).
    rewrite <- app_assoc. simpl. do 3 f_equal. lia.
Qed.

Lemma for_loop_from_zero {St : Type} (body : Z -> St -> St) (N : Z) (s : St) :
  0 <= N < 2 ^ 53 ->
  for_loop (Z.to_nat N) 0 N body s
  = Some (foldl (fun s j => body j s) s (seqZ 0 N)).
Proof.
  intros HN.
  pose proof (for_loop_foldl body (Z.to_nat N) (Z.to_nat N) 0 s) as Hloop.
  rewrite Z.add_0_l, Z2Nat.id in Hloop by lia. apply Hloop; lia.
Qed.

Lemma write_pass_from_zero (N : Z) :
  0 <= N < 2 ^ 52 ->
  foldl (fun a j => write_slot j a) (replicate (Z.to_nat N) None) (seqZ 0 N)
  = (fun j => Some (2 * j)) <$> seqZ 0 N.
Proof.
  intros HN. pose proof (write_pass_foldl (Z.to_nat N) []) as Hw.
  simpl in Hw. rewrite Z2Nat.id in Hw by lia. apply Hw. lia.
Qed.

(** The read pass adds up the doubles of the indices, one rounded
    addition after the other. *)
Lemma read_pass_foldl (N : Z) (k : nat) :
  forall (i s : Z),
    0 <= i -> i + Z.of_nat k <= N ->
    foldl (fun sum j => add_slot ((fun j => Some (2 * j)) <$> seqZ 0 N) j sum)
      (Some s) (seqZ i (Z.of_nat k))
    = Some (foldl (fun s j => num_add s (2 * j)) s (seqZ i (Z.of_nat k))).
Proof.
  induction k as [|k IH]; intros i s Hi Hk; [done|].
  rewrite (seqZ_cons i (Z.of_nat (S k))) by lia. simpl foldl.
  replace (Z.pred (Z.of_nat (S k))) with (Z.of_nat k) by lia.
  unfold add_slot at 1.
  rewrite list_lookup_fmap, lookup_seqZ_lt by lia.
  rewrite Z2Nat.id, Z.add_0_l by lia. simpl. apply IH; lia.
Qed.

(** Up to 2^27 numbers, every partial sum is a double: it is even and
    below 2^54. *)
Lemma rounded_sum_exact (k : nat) :
  forall i : Z,
    0 <= i -> i + Z.of_nat k <= 2 ^ 27 ->
    foldl (fun s j => num_add s (2 * j)) (i * (i - 1)) (seqZ i (Z.of_nat k))
    = (i + Z.of_nat k) * (i + Z.of_nat k - 1).
Proof.
  induction k as [|k IH]; intros i Hi Hk.
  - simpl. f_equal; lia.
  - rewrite (seqZ_cons i (Z.of_nat (S k))) by lia. simpl foldl.
    replace (Z.pred (Z.of_nat (S k))) with (Z.of_nat k) by lia.
    assert (Hstep : num_add (i * (i - 1)) (2 * i)
                    = Z.succ i * (Z.succ i - 1)).
    { unfold num_add.
      replace (i * (i - 1) + 2 * i) with (i * Z.succ i) by lia.
      rewrite round_double_even; [lia|nia|].
      rewrite Z.even_mul, Z.even_succ. apply Z.orb_even_odd. }
    rewrite Hstep, IH by lia. f_equal; lia.
Qed.

Lemma buffer_sum_from (k : nat) :
  forall i : Z,
    foldr Z.add 0 ((fun j => 2 * j) <$> seqZ i (Z.of_nat k))
    = Z.of_nat k * (2 * i + Z.of_nat k - 1).
Proof.
  induction k as [|k IH]; intros i; [done|].
  rewrite (seqZ_cons i (Z.of_nat (S k))) by lia. simpl.
  replace (Z.pred (Z.of_nat (S k))) with (Z.of_nat k) by lia.
  rewrite IH. lia.
Qed.

Lemma buffer_sum_closed (N : Z) : 0 <= N -> buffer_sum N = N * (N - 1).
Proof.
  intros HN. unfold buffer_sum.
  pose proof (buffer_sum_from (Z.to_nat N) 0) as Hs.
  rewrite Z2Nat.id in Hs by lia. rewrite Hs. lia.
Qed.

(** The length of the array of [memoryTest], by the size asked for. *)
Lemma arraySize_range (sizeMB : Z) :
  (sizeMB < 0 -> num_mul (num_mul sizeMB 1024) 1024 / 8 < 0) /\
  (forall k : Z, 0 <= k <= 2 ^ 32 -> k <= sizeMB ->
     k * 131072 <= num_mul (num_mul sizeMB 1024) 1024 / 8).
Proof.
  unfold num_mul.
  set (y := round_double (sizeMB * 1024)).
  set (z := round_double (y * 1024)).
  split.
  - intros Hneg.
    assert (Hz : z < 0).
    { destruct (decide (- 2 ^ 53 < sizeMB * 1024)) as [Hs|Hl].
      - assert (Hy : y = sizeMB * 1024)
          by (apply round_double_small; lia).
        destruct (decide (- 2 ^ 53 < y * 1024)) as [Hs2|Hl2].
        + unfold z. rewrite round_double_small by lia. lia.
        + pose proof (round_double_small_neg (y * 1024) ltac:(lia)).
          unfold z. lia.
      - pose proof (round_double_small_neg (sizeMB * 1024) ltac:(lia)) as Hy.
        fold y in Hy.
        pose proof (round_double_small_neg (y * 1024) ltac:(lia)).
        unfold z. lia. }
    apply Z.div_lt_upper_bound; lia.
  - intros k Hk Hsize.
    assert (Hz : k * 1048576 <= z).
    { destruct (decide (sizeMB * 1024 < 2 ^ 53)) as [Hs|Hl].
      - assert (Hy : y = sizeMB * 1024)
          by (apply round_double_small; lia).
        destruct (decide (y * 1024 < 2 ^ 53)) as [Hs2|Hl2].
        + unfold z. rewrite round_double_small by lia. lia.
        + pose proof (round_double_large (y * 1024) ltac:(lia)).
          unfold z. lia.
      - pose proof (round_double_large (sizeMB * 1024) ltac:(lia)) as Hy.
        fold y in Hy.
        pose proof (round_double_large (y * 1024) ltac:(lia)).
        unfold z. lia. }
    apply Z.div_le_lower_bound; lia.
Qed.

(** Outside 0 .. 1023 megabytes [memoryTest] throws. *)
Lemma memoryTest_None (sizeMB : Z) :
  sizeMB < 0 \/ 1024 <= sizeMB -> memoryTest sizeMB = None.
Proof.
  intros Hsize. unfold memoryTest.
  destruct (arraySize_range sizeMB) as [Hneg Hbig].
  set (N := num_mul (num_mul sizeMB 1024) 1024 / 8) in *.
  destruct (N <? 0) eqn:E1; [done|]. apply Z.ltb_ge in E1.
  destruct (MAX_ARRAY_LENGTH <? N); [done|]. simpl orb. cbv iota.
  destruct (MAX_STORE_LENGTH <? N) eqn:E3; [done|]. apply Z.ltb_ge in E3.
  exfalso. unfold MAX_STORE_LENGTH in E3.
  destruct Hsize as [Hs|Hs]; [specialize (Hneg Hs); lia|].
  specialize (Hbig 1024 ltac:(lia) Hs). lia.
Qed.

(** What [memoryTest] computes, for an array that can be filled. *)
Lemma memoryTest_rounded_sum (sizeMB : Z) :
  0 <= sizeMB <= 1023 ->
  memoryTest sizeMB
  = Some (mkMemoryResult sizeMB
            (Some (Z.rem (foldl (fun s j => num_add s (2 * j)) 0
                            (seqZ 0 (sizeMB * 1024 * 1024 / 8)))
                     1000000))).
Proof.
  intros Hsize. unfold memoryTest.
  rewrite (num_mul_small sizeMB), num_mul_small by lia.
  set (N := sizeMB * 1024 * 1024 / 8).
  assert (HN : N = sizeMB * 131072).
  { unfold N. replace (sizeMB * 1024 * 1024) with (sizeMB * 131072 * 8) by lia.
    apply Z.div_mul. lia. }
  assert (Hrange : 0 <= N <= MAX_STORE_LENGTH)
    by (unfold MAX_STORE_LENGTH; lia).
  destruct (N <? 0) eqn:E1; [apply Z.ltb_lt in E1; lia|].
  destruct (MAX_ARRAY_LENGTH <? N) eqn:E2;
    [apply Z.ltb_lt in E2; unfold MAX_ARRAY_LENGTH, MAX_STORE_LENGTH in *; lia|].
  simpl orb. cbv iota.
  destruct (MAX_STORE_LENGTH <? N) eqn:E3; [apply Z.ltb_lt in E3; lia|].
  unfold MAX_STORE_LENGTH in Hrange.
  rewrite for_loop_from_zero by lia. simpl mbind.
  rewrite write_pass_from_zero by lia.
  rewrite for_loop_from_zero by lia. simpl.
  pose proof (read_pass_foldl N (Z.to_nat N) 0 0) as Hread.
  rewrite Z2Nat.id in Hread by lia.
  rewrite Hread by lia. done.
Qed.

End MemoryFacts.

Section MemoryClaims.
Import Benchmark.

(** C8.  For a whole number of megabytes, the write pass stores 2*i
    at index i for every i in [0, N), N = memorySizeMB * 1024 * 1024 / 8,
    the read pass adds up exactly these values, and the checksum that
    [memoryTest] reports is (sum of 2*i for i in [0, N)) mod 1,000,000,
    which is N * (N - 1) mod 1,000,000: a function of the configuration
    alone.  [memoryTest] returns for 0 to 1023 megabytes, and whenever
    it returns, this is the checksum; for other sizes it throws and
    reports none. *)
Theorem memoryTest_checksum (sizeMB : Z) :
  (0 <= sizeMB <= 1023 ->
   for_loop (Z.to_nat (sizeMB * 1024 * 1024 / 8)) 0
     (sizeMB * 1024 * 1024 / 8) write_slot
     (replicate (Z.to_nat (sizeMB * 1024 * 1024 / 8)) None)
   = Some ((fun i => Some (2 * i)) <$> seqZ 0 (sizeMB * 1024 * 1024 / 8)) /\
   for_loop (Z.to_nat (sizeMB * 1024 * 1024 / 8)) 0
     (sizeMB * 1024 * 1024 / 8)
     (add_slot ((fun i => Some (2 * i))
                  <$> seqZ 0 (sizeMB * 1024 * 1024 / 8))) (Some 0)
   = Some (Some (buffer_sum (sizeMB * 1024 * 1024 / 8))) /\
   memoryTest sizeMB
   = Some (mkMemoryResult sizeMB
             (Some (buffer_sum (sizeMB * 1024 * 1024 / 8) mod 1000000))) /\
   buffer_sum (sizeMB * 1024 * 1024 / 8)
   = (sizeMB * 1024 * 1024 / 8) * (sizeMB * 1024 * 1024 / 8 - 1)) /\
  (forall r : MemoryResult,
      memoryTest sizeMB = Some r ->
      0 <= sizeMB <= 1023 /\
      allocatedMB r = sizeMB /\
      checksum r
      = Some (buffer_sum (sizeMB * 1024 * 1024 / 8) mod 1000000)).
Proof.
  assert (Hin : 0 <= sizeMB <= 1023 ->
    for_loop (Z.to_nat (sizeMB * 1024 * 1024 / 8)) 0
      (sizeMB * 1024 * 1024 / 8) write_slot
      (replicate (Z.to_nat (sizeMB * 1024 * 1024 / 8)) None)
    = Some ((fun i => Some (2 * i)) <$> seqZ 0 (sizeMB * 1024 * 1024 / 8)) /\
    for_loop (Z.to_nat (sizeMB * 1024 * 1024 / 8)) 0
      (sizeMB * 1024 * 1024 / 8)
      (add_slot ((fun i => Some (2 * i))
                   <$> seqZ 0 (sizeMB * 1024 * 1024 / 8))) (Some 0)
    = Some (Some (buffer_sum (sizeMB * 1024 * 1024 / 8))) /\
    memoryTest sizeMB
    = Some (mkMemoryResult sizeMB
              (Some (buffer_sum (sizeMB * 1024 * 1024 / 8) mod 1000000))) /\
    buffer_sum (sizeMB * 1024 * 1024 / 8)
    = (sizeMB * 1024 * 1024 / 8) * (sizeMB * 1024 * 1024 / 8 - 1)).
  { intros Hsize. pose proof (memoryTest_rounded_sum sizeMB Hsize) as Hm.
    set (N := sizeMB * 1024 * 1024 / 8) in *.
    assert (HN : N = sizeMB * 131072).
    { unfold N.
      replace (sizeMB * 1024 * 1024) with (sizeMB * 131072 * 8) by lia.
      apply Z.div_mul. lia. }
    pose proof (rounded_sum_exact (Z.to_nat N) 0) as Hexact.
    rewrite Z2Nat.id in Hexact by lia.
    change (0 * (0 - 1)) with 0 in Hexact.
    rewrite Z.add_0_l in Hexact. specialize (Hexact ltac:(lia) ltac:(lia)).
    pose proof (buffer_sum_closed N ltac:(lia)) as Hsum.
    split_and!.
    - rewrite for_loop_from_zero by lia. f_equal.
      apply write_pass_from_zero. lia.
    - rewrite for_loop_from_zero by lia. f_equal.
      pose proof (read_pass_foldl N (Z.to_nat N) 0 0) as Hread.
      rewrite Z2Nat.id in Hread by lia.
      rewrite Hread by lia. f_equal. by rewrite Hexact, Hsum.
    - rewrite Hm, Hexact, Hsum. do 3 f_equal. apply Z.rem_mod_nonneg; nia.
    - exact Hsum. }
  split; [exact Hin|].
  intros r Hr.
  assert (Hsize : 0 <= sizeMB <= 1023).
  { destruct (decide (0 <= sizeMB <= 1023)) as [|Hout]; [done|].
    rewrite memoryTest_None in Hr by lia. done. }
  destruct (Hin Hsize) as (_ & _ & Hm & _).
  rewrite Hm in Hr. injection Hr as <-. done.
Qed.

Lemma memoryTest_checksum_witness :
  memoryTest 1023 = Some (mkMemoryResult 1023 (Some 175680)) /\
  (forall r, memoryTest 1024 <> Some r).
Proof.
  split.
  - assert (Hsize : 0 <= 1023 <= 1023) by (split; discriminate).
    destruct (proj1 (memoryTest_checksum 1023) Hsize) as (_ & _ & Hm & Hsum).
    rewrite Hsum in Hm. exact Hm.
  - intros r Hr.
    destruct (proj2 (memoryTest_checksum 1024) r Hr) as [[_ Hle] _].
    by apply Hle.
Defined.

End MemoryClaims.

(* ----------------------------------------------------------------- *)
(** ** The CPU phase *)

Section CpuFacts.
Import Benchmark.

Lemma rem_zero_divide (n d : Z) : 0 < n -> 0 < d -> (Z.rem n d =? 0) = true <-> (d | n).
Proof.
  intros Hn Hd. rewrite Z.eqb_eq, Z.rem_mod_nonneg by lia.
  apply Z.mod_divide. lia.
Qed.

Lemma even_divisor (n d : Z) : ~ (2 | n) -> (2 | d) -> ~ (d | n).
Proof. intros Hn Hd Hdn. apply Hn. by etrans. Qed.

Lemma three_divisor (n d : Z) : ~ (3 | n) -> (3 | d) -> ~ (d | n).
Proof. intros Hn Hd Hdn. apply Hn. by etrans. Qed.

(** No divisor below [i] and [i * i > n] leave no divisor at all. *)
Lemma no_small_divisor_prime (n i : Z) :
  1 < n -> 0 < i -> n < i * i ->
  (forall d, 1 < d < i -> ~ (d | n)) -> Z.prime n.
Proof.
  intros Hn Hi Hsq Hsmall. split; [done|]. intros d Hd [q Hq].
  destruct (decide (d < i)) as [Hlt|Hge].
  - apply (Hsmall d); [lia|]. by exists q.
  - assert (1 < q < i) as Hqi by nia.
    apply (Hsmall q Hqi). exists d. lia.
Qed.

Lemma divisor_not_prime (n d : Z) : 1 < d < n -> (d | n) -> ~ Z.prime n.
Proof. intros Hd Hdiv [_ Hp]. by apply (Hp d). Qed.

(** The loop over the candidates 6k - 1 and 6k + 1. *)
Lemma isPrime_loop_spec (n : Z) (fuel : nat) :
  forall i : Z,
    3 < n -> ~ (2 | n) -> ~ (3 | n) ->
    5 <= i -> i mod 6 = 5 ->
    (forall d, 1 < d < i -> ~ (d | n)) ->
    n < Z.of_nat fuel + i ->
    isPrime_loop fuel n i = Some (bool_decide (Z.prime n)).
Proof.
  induction fuel as [|fuel IH]; intros i Hn H2 H3 Hi Hmod Hsmall Hfuel.
  - simpl. destruct (i * i <=? n) eqn:E; [apply Z.leb_le in E; nia|].
    apply Z.leb_gt in E. rewrite bool_decide_eq_true_2; [done|].
    by apply (no_small_divisor_prime n i); try lia.
  - simpl. destruct (i * i <=? n) eqn:E.
    + apply Z.leb_le in E.
      destruct (Z.rem n i =? 0) eqn:Ei.
      { apply rem_zero_divide in Ei; [|lia..]. simpl.
        rewrite bool_decide_eq_false_2; [done|].
        apply (divisor_not_prime n i); [nia|done]. }
      destruct (Z.rem n (i + 2) =? 0) eqn:Ei2.
      { apply rem_zero_divide in Ei2; [|lia..]. simpl.
        rewrite bool_decide_eq_false_2; [done|].
        apply (divisor_not_prime n (i + 2)); [nia|done]. }
      simpl. apply IH; try done; try lia.
      * rewrite <- Zplus_mod_idemp_l, Hmod. reflexivity.
      * intros d Hd.
        destruct (decide (d < i)) as [?|?]; [apply Hsmall; lia|].
        assert (Hcases : d = i \/ d = i + 1 \/ d = i + 2 \/ d = i + 3 \/
                         d = i + 4 \/ d = i + 5) by lia.
        pose proof (Z.div_mod i 6 ltac:(lia)) as Hdm. rewrite Hmod in Hdm.
        destruct Hcases as [-> |[-> |[-> |[-> |[-> | -> ]]]]].
        -- intros Hd'. apply rem_zero_divide in Hd'; [|lia..]. congruence.
        -- apply even_divisor; [done|]. exists (3 * (i / 6) + 3). lia.
        -- intros Hd'. apply rem_zero_divide in Hd'; [|lia..]. congruence.
        -- apply even_divisor; [done|]. exists (3 * (i / 6) + 4). lia.
        -- apply three_divisor; [done|]. exists (2 * (i / 6) + 3). lia.
        -- apply even_divisor; [done|]. exists (3 * (i / 6) + 5). lia.
    + apply Z.leb_gt in E. rewrite bool_decide_eq_true_2; [done|].
      by apply (no_small_divisor_prime n i); try lia.
Qed.

(** [isPrime] returns, and what it returns is whether [n] is prime. *)
Lemma isPrime_spec (n : Z) : isPrime n = Some (bool_decide (Z.prime n)).
Proof.
  unfold isPrime.
  destruct (n <=? 1) eqn:E1.
  { apply Z.leb_le in E1. rewrite bool_decide_eq_false_2; [done|].
    intros [? _]. lia. }
  apply Z.leb_gt in E1.
  destruct (n <=? 3) eqn:E3.
  { apply Z.leb_le in E3. rewrite bool_decide_eq_true_2; [done|].
    assert (n = 2 \/ n = 3) as [->| ->] by lia;
      [apply Z.prime_2|apply Z.prime_3]. }
  apply Z.leb_gt in E3.
  destruct (Z.rem n 2 =? 0) eqn:R2.
  { apply rem_zero_divide in R2; [|lia..]. simpl.
    rewrite bool_decide_eq_false_2; [done|].
    apply (divisor_not_prime n 2); [lia|done]. }
  destruct (Z.rem n 3 =? 0) eqn:R3.
  { apply rem_zero_divide in R3; [|lia..]. simpl.
    rewrite bool_decide_eq_false_2; [done|].
    apply (divisor_not_prime n 3); [lia|done]. }
  simpl.
  assert (H2 : ~ (2 | n)).
  { intros Hd. apply rem_zero_divide in Hd; [|lia..]. congruence. }
  assert (H3 : ~ (3 | n)).
  { intros Hd. apply rem_zero_divide in Hd; [|lia..]. congruence. }
  apply isPrime_loop_spec; try done; try lia.
  intros d Hd. assert (d = 2 \/ d = 3 \/ d = 4) as [->|[->| ->]] by lia;
    [done|done|].
  apply even_divisor; [done|]. by exists 2.
Qed.

Lemma count_primes_one : count_primes 1 = 0.
Proof. reflexivity. Qed.

Lemma count_primes_succ (N : Z) :
  1 <= N ->
  count_primes (N + 1)
  = count_primes N + (if bool_decide (Z.prime (N + 1)) then 1 else 0).
Proof.
  intros HN. unfold count_primes.
  replace (N + 1 - 1) with (Z.of_nat (S (Z.to_nat (N - 1)))) by lia.
  rewrite seqZ_S, filter_app, length_app, Z2Nat.id by lia.
  replace (2 + (N - 1)) with (N + 1) by lia.
  rewrite Nat2Z.inj_add. f_equal.
  rewrite filter_cons, filter_nil.
  destruct (decide (Z.prime (N + 1))) as [Hp|Hp].
  - by rewrite bool_decide_eq_true_2.
  - by rewrite bool_decide_eq_false_2.
Qed.

Lemma cpu_loop_inv (n : nat) :
  forall (clock : list Z) (d start : Z) (s s' : CpuLoop) (rest : list Z),
    (length clock <= n)%nat ->
    cpu_loop d start clock s = Some (s', rest) ->
    cpu_inv s -> cpu_inv s'.
Proof.
  induction n as [|n IH]; intros clock d start s s' rest Hlen Hrun Hinv.
  - destruct clock; [done|simpl in Hlen; lia].
  - destruct clock as [|t clock1]; [done|]. simpl in Hrun.
    destruct (t - start <? d); [|by injection Hrun as <- _].
    rewrite isPrime_spec in Hrun.
    destruct clock1 as [|now clock2]; [done|].
    apply IH in Hrun; [done|simpl in Hlen; lia|].
    destruct Hinv as (Hnum & Hpos & Hcount).
    unfold cpu_inv. simpl. split; [lia|]. split; [lia|].
    replace (num s + 1 - 1) with ((num s - 1) + 1) by lia.
    rewrite count_primes_succ by lia.
    replace (num s - 1 + 1) with (num s) by lia.
    rewrite Hcount. destruct (bool_decide (Z.prime (num s))); lia.
Qed.

Lemma cpu_inv_start (start : Z) : cpu_inv (mkCpuLoop 2 0 0 start).
Proof. unfold cpu_inv. simpl. split; [done|]. split; [done|]. reflexivity. Qed.

(** While the clock stands, the loop goes on; it ends at the first
    reading that is past the budget. *)
Lemma cpu_loop_steady (k : nat) :
  forall (d start t_end : Z) (rest : list Z) (s : CpuLoop),
    0 < d -> d <= t_end - start ->
    exists s',
      cpu_loop d start (steady_clock k start (t_end :: rest)) s
      = Some (s', rest) /\
      loop_iterations s' = loop_iterations s + Z.of_nat k.
Proof.
  induction k as [|k IH]; intros d start t_end rest s Hd Hend.
  - simpl. destruct (t_end - start <? d) eqn:E; [apply Z.ltb_lt in E; lia|].
    exists s. split; [done|lia].
  - simpl. rewrite Z.sub_diag.
    destruct (0 <? d) eqn:E; [|apply Z.ltb_ge in E; lia].
    rewrite isPrime_spec.
    edestruct IH as (s' & Hrun & Hit); [done..|].
    exists s'. split; [exact Hrun|]. rewrite Hit. simpl. lia.
Qed.

End CpuFacts.

Section CpuClaims.
Import Benchmark.

(** C7.  [isPrime] returns for every integer, and returns true exactly
    for the primes.  When the loop of [cpuTest] stops, with N the last
    integer it tested, the iterations are N - 1 and the primes counted
    are the primes in [2, N]; so the reported primesFound is the number
    of primes up to iterations + 1, two runs with the same number of
    iterations report the same counts, and a clock that allows k turns
    gives k iterations. *)
Theorem cpuTest_counts :
  (forall n : Z, isPrime n = Some true <-> Z.prime n) /\
  (forall n : Z, exists b, isPrime n = Some b) /\
  (forall (d start : Z) (clock rest : list Z) (s : CpuLoop),
      cpu_loop d start clock (mkCpuLoop 2 0 0 start) = Some (s, rest) ->
      loop_iterations s = (num s - 1) - 1 /\
      primeCount s = count_primes (num s - 1)) /\
  (forall (d : Z) (clock rest : list Z) (r : CpuResult),
      cpuTest d clock = Some (r, rest) ->
      0 <= iterations r /\
      primesFound r = count_primes (iterations r + 1)) /\
  (forall (d1 d2 : Z) (clock1 clock2 rest1 rest2 : list Z)
          (r1 r2 : CpuResult),
      cpuTest d1 clock1 = Some (r1, rest1) ->
      cpuTest d2 clock2 = Some (r2, rest2) ->
      iterations r1 = iterations r2 -> primesFound r1 = primesFound r2) /\
  (forall (k : nat) (d start : Z) (rest : list Z),
      0 < d ->
      cpuTest d (start :: steady_clock k start
                            (start + d :: start + d :: rest))
      = Some (mkCpuResult (Z.of_nat k) (count_primes (Z.of_nat k + 1)) d,
              rest)).
Proof.
  assert (Hloop : forall (d start : Z) (clock rest : list Z) (s : CpuLoop),
             cpu_loop d start clock (mkCpuLoop 2 0 0 start) = Some (s, rest) ->
             cpu_inv s).
  { intros d start clock rest s Hrun.
    eapply (cpu_loop_inv (length clock)); [done|exact Hrun|].
    apply cpu_inv_start. }
  assert (Htest : forall (d : Z) (clock rest : list Z) (r : CpuResult),
             cpuTest d clock = Some (r, rest) ->
             0 <= iterations r /\
             primesFound r = count_primes (iterations r + 1)).
  { intros d clock rest r. unfold cpuTest.
    destruct clock as [|start clock1]; [done|].
    destruct (cpu_loop d start clock1 (mkCpuLoop 2 0 0 start))
      as [[s [|t_end rest']]|] eqn:Hrun; try done.
    intros [= <- <-]. simpl.
    destruct (Hloop _ _ _ _ _ Hrun) as (Hnum & Hpos & Hcount).
    split; [done|]. rewrite Hcount. f_equal. lia. }
  split; [|split; [|split; [|split; [|split]]]].
  - intros n. rewrite isPrime_spec. split.
    + intros [= Hb]. by apply bool_decide_eq_true in Hb.
    + intros Hp. by rewrite bool_decide_eq_true_2.
  - intros n. rewrite isPrime_spec. eauto.
  - intros d start clock rest s Hrun.
    destruct (Hloop _ _ _ _ _ Hrun) as (Hnum & Hpos & Hcount).
    split; [lia|done].
  - exact Htest.
  - intros d1 d2 clock1 clock2 rest1 rest2 r1 r2 H1 H2 Heq.
    apply Htest in H1 as [_ ->]. apply Htest in H2 as [_ ->].
    by rewrite Heq.
  - intros k d start rest Hd. unfold cpuTest.
    destruct (cpu_loop_steady k d start (start + d) (start + d :: rest)
                (mkCpuLoop 2 0 0 start) Hd ltac:(lia)) as (s & Hrun & Hit).
    rewrite Hrun.
    destruct (Hloop _ _ _ _ _ Hrun) as (Hnum & Hpos & Hcount).
    simpl in Hit. do 2 f_equal.
    rewrite Hcount, Hnum, Hit. f_equal; try lia. f_equal. lia.
Qed.

Lemma cpuTest_counts_witness :
  cpuTest 5000 (1000 :: steady_clock 9 1000 [6000; 6000])
  = Some (mkCpuResult 9 4 5000, []) /\
  count_primes (9 + 1) = 4.
Proof.
  destruct cpuTest_counts as (_ & _ & _ & Hcount & _ & Hrun).
  pose proof (Hrun 9%nat 5000 1000 [] eq_refl) as Hk.
  pose proof (Hcount 5000 (1000 :: steady_clock 9 1000 [6000; 6000]) []
                (mkCpuResult 9 4 5000) eq_refl) as [_ Hc].
  split; [reflexivity|]. symmetry. exact Hc.
Defined.

End CpuClaims.

(* ----------------------------------------------------------------- *)
(** ** One proof cycle *)

Section ArtifactFacts.
Import Ethers JSON FS Hash Artifacts.

Lemma bind_Some {A B : Type} (c : IO A) (k : A -> IO B) (d d' : Disk) (b : B) :
  bind c k d = (d', Some b) ->
  exists d1 a, c d = (d1, Some a) /\ k a d1 = (d', Some b).
Proof.
  unfold bind. destruct (c d) as [d1 [a|]]; [eauto|done].
Qed.

Lemma reading_Some {A : Type} (f : Disk -> option A) (d d' : Disk) (a : A) :
  reading f d = (d', Some a) -> d' = d /\ f d = Some a.
Proof. unfold reading. by intros [= <- ->]. Qed.

Lemma writing_Some (f : Disk -> option Disk) (d d' : Disk) (u : unit) :
  writing f d = (d', Some u) -> f d = Some d'.
Proof. unfold writing. destruct (f d); [by intros [= <-]|done]. Qed.

Lemma writeFile_fresh (d : Disk) (dir name : string) (folder : Folder)
    (content : list byte) :
  d !! dir = Some folder -> folder !! name = None ->
  writeFile d dir name content
  = Some (<[dir := <[name := File content]> folder]> d).
Proof. intros Hd Hn. unfold writeFile. rewrite Hd. simpl. by rewrite Hn. Qed.

Context `{Process}.

(** [createArtifactFolder] replaces the directory of the task by one
    with the three files, when the metrics can be read off the results,
    and throws otherwise. *)
Lemma createArtifactFolder_ok (taskId : Z) (results metrics : json)
    (logs : list string) (d : Disk) :
  metrics_of results = Some metrics ->
  createArtifactFolder taskId results logs d
  = (<[artifact_path taskId := artifact_folder results metrics logs]>
       (delete (artifact_path taskId) d),
     Some (artifact_path taskId)).
Proof.
  intros Hm. unfold createArtifactFolder, bind, writing at 1 2, remove, ensureDir.
  rewrite lookup_delete_eq.
  unfold writing at 1.
  rewrite (writeFile_fresh _ _ _ ∅) by (by rewrite ?lookup_insert_eq).
  unfold reading. rewrite Hm.
  unfold writing at 1.
  rewrite (writeFile_fresh _ _ _ (<["execution.log" := _]> ∅))
    by (by rewrite ?lookup_insert_eq).
  unfold writing.
  rewrite (writeFile_fresh _ _ _
             (<["metrics.json" := _]> (<["execution.log" := _]> ∅)))
    by (by rewrite ?lookup_insert_eq).
  unfold ret, artifact_folder. by rewrite !insert_insert_eq.
Qed.

Lemma createArtifactFolder_Some (taskId : Z) (results : json)
    (logs : list string) (d d1 : Disk) (p : string) :
  createArtifactFolder taskId results logs d = (d1, Some p) ->
  exists metrics, metrics_of results = Some metrics.
Proof.
  destruct (metrics_of results) as [metrics|] eqn:Hm; [eauto|].
  unfold createArtifactFolder, bind, writing at 1 2, remove, ensureDir.
  rewrite lookup_delete_eq.
  unfold writing at 1.
  rewrite (writeFile_fresh _ _ _ ∅) by (by rewrite ?lookup_insert_eq).
  unfold reading. by rewrite Hm.
Qed.

(** Whatever the storage network does, [uploadToGreenfield] returns,
    and returns the address made from the task id. *)
Lemma uploadToGreenfield_url `{Greenfield} `{Readdir} (d : Disk)
    (folderPath : string) (taskId : Z) :
  uploadToGreenfield d folderPath taskId = greenfield_url taskId.
Proof.
  unfold uploadToGreenfield.
  destruct (negb (is_set bucket) || negb (is_set privateKey)
            || negb (is_set accountAddress)); [done|].
  by destruct (if getClient then _ else _).
Qed.

(** What a successful [processArtifacts] has done. *)
Lemma processArtifacts_Some `{Keccak} `{Readdir} `{Greenfield}
    (taskId : Z) (results : json) (logs : list string) (createdAt : string)
    (d d' : Disk) (a : Processed) :
  processArtifacts taskId results logs createdAt d = (d', Some a) ->
  exists (metrics : json) (receipt : list byte),
    metrics_of results = Some metrics /\
    artifactPath a = artifact_path taskId /\
    artifactUrl a = greenfield_url taskId /\
    hashArtifactFolder
      (<[artifact_path taskId := artifact_folder results metrics logs]>
         (delete (artifact_path taskId) d))
      (artifact_path taskId) = Some (artifactHash a) /\
    resultHash a
    = hexlify (keccak256_bytes (toUtf8Bytes (stringify results None 2))) /\
    d' = <[artifact_path taskId :=
             <["receipt.json" := File receipt]>
               (artifact_folder results metrics logs)]>
           (delete (artifact_path taskId) d).
Proof.
  unfold processArtifacts. intros Hrun.
  apply bind_Some in Hrun as (d1 & p & Hcreate & Hrun).
  destruct (createArtifactFolder_Some _ _ _ _ _ _ Hcreate) as [metrics Hm].
  rewrite (createArtifactFolder_ok _ _ _ _ _ Hm) in Hcreate.
  injection Hcreate as <- <-.
  set (p := artifact_path taskId) in *.
  set (folder := artifact_folder results metrics logs) in *.
  apply bind_Some in Hrun as (d2 & url & Hurl & Hrun).
  apply reading_Some in Hurl as [-> [= <-]].
  apply bind_Some in Hrun as (d2 & ah & Hah & Hrun).
  apply reading_Some in Hah as [-> Hah].
  apply bind_Some in Hrun as (d2 & content & Hcontent & Hrun).
  apply reading_Some in Hcontent as [-> Hcontent].
  apply bind_Some in Hrun as (d2 & rh & Hrh & Hrun).
  apply reading_Some in Hrh as [-> Hrh].
  apply bind_Some in Hrun as (d2 & u & Hreceipt & Hrun).
  injection Hrun as <- <-. simpl.
  assert (Hc : content = toUtf8Bytes (stringify results None 2)).
  { unfold readFile, stat in Hcontent. rewrite lookup_insert_eq in Hcontent.
    simpl in Hcontent. unfold folder, artifact_folder in Hcontent.
    rewrite lookup_insert_eq in Hcontent. by injection Hcontent as <-. }
  subst content. rewrite keccak256_Bytes in Hrh. injection Hrh as <-.
  unfold createReceipt in Hreceipt.
  apply writing_Some in Hreceipt. fold p in Hreceipt.
  rewrite (writeFile_fresh _ _ _ folder) in Hreceipt
    by (by rewrite ?lookup_insert_eq).
  injection Hreceipt as <-. rewrite insert_insert_eq.
  exists metrics. eexists. rewrite uploadToGreenfield_url.
  repeat split; done.
Qed.

End ArtifactFacts.

Section CycleClaims.
Import Ethers JSON FS Hash Artifacts Route.

Lemma to_bytes32_hexlify (bs rhb : list byte) :
  to_bytes32 (hexlify bs) = Some rhb -> rhb = bs.
Proof.
  unfold to_bytes32, hexlify. rewrite getBytes_hexlify. simpl.
  case_decide; [by intros [= <-]|done].
Qed.

(** What the ledger holds after the receipt went through. *)
Lemma route_submitReceipt_Some (st st' : Registry.State) (env : Registry.Env)
    (taskId : Z) (ah rh : string) :
  submitReceipt st env taskId ah rh = Some st' ->
  exists ahb rhb,
    to_bytes32 ah = Some ahb /\ to_bytes32 rh = Some rhb /\
    Registry.receipts st' !! taskId
    = Some (Registry.mkReceipt (Registry.sender env) ahb rhb
              (Registry.timestamp env)).
Proof.
  unfold submitReceipt.
  destruct (Wrapper.to_uint256 taskId) as [id|] eqn:Hid; [|done].
  unfold Wrapper.to_uint256 in Hid. case_match; [done|].
  injection Hid as <-.
  destruct (to_bytes32 ah) as [ahb|]; [|done].
  destruct (to_bytes32 rh) as [rhb|]; [|done]. simpl.
  unfold Registry.submitReceipt. repeat case_decide; try done.
  intros [= <-]. exists ahb, rhb. simpl. by rewrite lookup_insert_eq.
Qed.

(** C1.  When a proof cycle completes, the result hash it reports and
    has submitted is the keccak256 hash of the bytes of the task's
    result.json as it then lies on the disk, and the receipt recorded
    on the ledger for the task id holds that digest as its resultHash:
    hashing the stored result.json again gives the recorded hash. *)
Theorem resultHash_is_hash_of_result_json
    `{Keccak} `{Readdir} `{Greenfield} `{Process}
    (w w' : World) (req : Request) (taskId : Z) (ah rh url : string) :
  execute_route w req = (w', Executed taskId ah rh url) ->
  exists content : list byte,
    readFile (disk w') (artifact_path taskId) "result.json" = Some content /\
    keccak256 (Bytes content) = Some rh /\
    to_bytes32 rh = Some (keccak256_bytes content) /\
    is_Some (Registry.receipts (ledger w') !! taskId) /\
    Registry.resultHash (Registry.receipts_at (ledger w') taskId)
    = keccak256_bytes content.
Proof.
  unfold execute_route.
  destruct (param req) as [id|]; [|done].
  destruct (id <? 0); [done|].
  destruct (benchmark req) as [results|]; [|done].
  destruct (processArtifacts id results (logs req) (createdAt req) (disk w))
    as [d' [a|]] eqn:Hrun; [|done].
  destruct (submitReceipt (ledger w) (env req) id (artifactHash a)
              (resultHash a)) as [ledger'|] eqn:Hsub; [|done].
  intros [= <- <- <- <- <-]. simpl.
  apply processArtifacts_Some in Hrun
    as (metrics & receipt & Hm & Hpath & Hurl & Hah & Hrh & ->).
  apply route_submitReceipt_Some in Hsub
    as (ahb & rhb & Hahb & Hrhb & Hstored).
  rewrite Hrh in Hrhb. pose proof (to_bytes32_hexlify _ _ Hrhb) as ->.
  exists (toUtf8Bytes (stringify results None 2)).
  split; [|split; [|split; [|split]]].
  - unfold readFile, stat. rewrite lookup_insert_eq. simpl.
    rewrite lookup_insert_ne by done.
    unfold artifact_folder. by rewrite lookup_insert_eq.
  - by rewrite Hrh.
  - by rewrite Hrh.
  - by rewrite Hstored.
  - unfold Registry.receipts_at. by rewrite Hstored.
Qed.

Lemma resultHash_is_hash_of_result_json_witness :
  exists (w' : World) (ah rh url : string) (content : list byte),
    @execute_route sample_keccak sample_readdir no_storage sample_process
      sample_world sample_request = (w', Executed 0 ah rh url) /\
    readFile (disk w') (@artifact_path sample_process 0) "result.json"
    = Some content /\
    Registry.resultHash (Registry.receipts_at (ledger w') 0)
    = @keccak256_bytes sample_keccak content.
Proof.
  pose (out := @execute_route sample_keccak sample_readdir no_storage
                 sample_process sample_world sample_request).
  assert (Hout : exists ah rh url, out = (out.1, Executed 0 ah rh url)).
  { vm_compute. do 3 eexists. reflexivity. }
  destruct Hout as (ah & rh & url & Hout).
  destruct (@resultHash_is_hash_of_result_json sample_keccak sample_readdir
              no_storage sample_process sample_world out.1 sample_request 0
              ah rh url Hout) as (content & Hfile & _ & _ & _ & Hledger).
  exists out.1, ah, rh, url, content.
  split; [exact Hout|]. split; [exact Hfile|exact Hledger].
Defined.

(** C9.  Whatever the storage network does (not configured, a client
    that cannot be made, an upload that fails), [uploadToGreenfield]
    returns the address made from the task id alone; [processArtifacts]
    and the whole cycle do what they do with any other storage network,
    one whose uploads all go through among them; the artifact hash and
    the result hash are those of the files on the local disk; and the
    cycle goes on to submit the receipt with these two hashes. *)
Theorem upload_failure_keeps_cycle
    `{Keccak} `{Readdir} `{!ReaddirSpec} `{Process}
    (G G' : Greenfield) (w : World) (req : Request) :
  (forall (d : Disk) (path : string) (taskId : Z),
      @uploadToGreenfield G _ d path taskId = greenfield_url taskId) /\
  (forall (taskId : Z) (results : json) (logs : list string)
          (createdAt : string) (d : Disk),
      @processArtifacts _ _ G _ taskId results logs createdAt d
      = @processArtifacts _ _ G' _ taskId results logs createdAt d) /\
  @execute_route _ _ G _ w req = @execute_route _ _ G' _ w req /\
  (forall (taskId : Z) (results : json) (d' : Disk) (a : Processed),
      param req = Some taskId -> 0 <= taskId ->
      benchmark req = Some results ->
      @processArtifacts _ _ G _ taskId results (logs req) (createdAt req)
        (disk w) = (d', Some a) ->
      (exists (folder : Folder) (content receipt : list byte),
          d' !! artifact_path taskId
          = Some (<["receipt.json" := File receipt]> folder) /\
          folder !! "receipt.json" = None /\
          folder !! "result.json" = Some (File content) /\
          artifactHash a = hexlify (artifact_digest folder) /\
          resultHash a = hexlify (keccak256_bytes content) /\
          artifactUrl a = greenfield_url taskId) /\
      @execute_route _ _ G _ w req
      = match submitReceipt (ledger w) (env req) taskId (artifactHash a)
                (resultHash a) with
        | Some ledger' =>
            (mkWorld d' ledger',
             Executed taskId (artifactHash a) (resultHash a)
               (greenfield_url taskId))
        | None => (mkWorld d' (ledger w), ServerError)
        end).
Proof.
  assert (Hproc : forall taskId results logs createdAt d,
             @processArtifacts _ _ G _ taskId results logs createdAt d
             = @processArtifacts _ _ G' _ taskId results logs createdAt d).
  { intros taskId results logs createdAt d.
    unfold processArtifacts, bind at 1 7.
    destruct (createArtifactFolder taskId results logs d) as [d1 [p|]];
      [|done].
    unfold bind at 1 6, reading at 1 5.
    by rewrite !uploadToGreenfield_url. }
  split; [intros; apply uploadToGreenfield_url|].
  split; [exact Hproc|]. split.
  - unfold execute_route.
    destruct (param req) as [id|]; [|done].
    destruct (id <? 0); [done|].
    destruct (benchmark req) as [results|]; [|done].
    by rewrite Hproc.
  - intros taskId results d' a Hparam Hpos Hbench Hrun. split.
    + apply processArtifacts_Some in Hrun
        as (metrics & receipt & Hm & Hpath & Hurl & Hah & Hrh & ->).
      exists (artifact_folder results metrics (logs req)),
        (toUtf8Bytes (stringify results None 2)), receipt.
      rewrite (hashArtifactFolder_digest _ _
                 (artifact_folder results metrics (logs req))) in Hah
        by (by rewrite lookup_insert_eq).
      injection Hah as <-.
      rewrite lookup_insert_eq. unfold artifact_folder.
      rewrite !lookup_insert_ne by done.
      rewrite lookup_insert_eq, lookup_empty. done.
    + unfold execute_route. rewrite Hparam.
      destruct (taskId <? 0) eqn:E; [apply Z.ltb_lt in E; lia|].
      rewrite Hbench, Hrun.
      apply processArtifacts_Some in Hrun
        as (metrics & receipt & _ & _ & Hurl & _).
      rewrite Hurl. done.
Qed.

Lemma upload_failure_keeps_cycle_witness :
  @execute_route sample_keccak sample_readdir failing_storage sample_process
    sample_world sample_request
  = @execute_route sample_keccak sample_readdir working_storage
      sample_process sample_world sample_request /\
  (exists ah rh : string,
      snd (@execute_route sample_keccak sample_readdir failing_storage
             sample_process sample_world sample_request)
      = Executed 0 ah rh (greenfield_url 0)).
Proof.
  split; [|vm_compute; do 2 eexists; reflexivity].
  apply (@upload_failure_keeps_cycle sample_keccak sample_readdir
           sample_readdir_spec sample_process failing_storage
           working_storage sample_world sample_request).
Defined.

End CycleClaims.

(* ================================================================= *)
(** * Further properties of the code *)

(* ----------------------------------------------------------------- *)
(** ** The ledger: counter and dates *)

Section LedgerFacts.
Import Registry.

(** One transaction at a block time not before [T] keeps the dates in
    order: every task is dated at most the block time, and every
    receipt not before its task. *)
Lemma step_dated (st : State) (tx : Tx) (T : Z) :
  registry_inv st -> T <= timestamp (tx_env tx) ->
  (forall id t, tasks st !! id = Some t -> createdAt t <= T) ->
  (forall id t r, tasks st !! id = Some t -> receipts st !! id = Some r ->
                  createdAt t <= completedAt r) ->
  (forall id t, tasks (step st tx).1 !! id = Some t ->
                createdAt t <= timestamp (tx_env tx)) /\
  (forall id t r, tasks (step st tx).1 !! id = Some t ->
                  receipts (step st tx).1 !! id = Some r ->
                  createdAt t <= completedAt r).
Proof.
  intros Hinv HT Hdated Hordered.
  assert (Hold : forall id t, tasks st !! id = Some t ->
                              createdAt t <= timestamp (tx_env tx)).
  { intros id t Ht. specialize (Hdated id t Ht). lia. }
  unfold step, createTask, submitReceipt.
  destruct (tx_call tx) as [h|id' ah rh]; repeat case_decide; simpl;
    try (split; [exact Hold|exact Hordered]).
  - split.
    + intros id t. rewrite lookup_insert. case_decide.
      * intros [= <-]. simpl. lia.
      * apply Hold.
    + intros id t r. rewrite lookup_insert. case_decide.
      * subst id. intros _ Hr.
        destruct (inv_receipts st Hinv _ _ Hr) as [_ Hsome].
        apply (inv_tasks st Hinv) in Hsome. lia.
      * apply Hordered.
  - split; [exact Hold|].
    intros id t r Ht. rewrite lookup_insert. case_decide.
    + intros [= <-]. simpl. specialize (Hdated id t Ht). lia.
    + by apply Hordered.
Qed.

Lemma run_dated (txs : list Tx) :
  forall (st : State) (T : Z),
    registry_inv st -> Forall valid_tx txs ->
    StronglySorted Z.le (T :: ((fun tx => timestamp (tx_env tx)) <$> txs)) ->
    (forall id t, tasks st !! id = Some t -> createdAt t <= T) ->
    (forall id t r, tasks st !! id = Some t -> receipts st !! id = Some r ->
                    createdAt t <= completedAt r) ->
    forall id t r, tasks (run st txs).1 !! id = Some t ->
                   receipts (run st txs).1 !! id = Some r ->
                   createdAt t <= completedAt r.
Proof.
  induction txs as [|tx txs IH]; intros st T Hinv Hv Hs Hdated Hordered;
    [exact Hordered|].
  rewrite run_cons. simpl.
  apply Forall_cons in Hv as [Htx Hv].
  apply StronglySorted_inv in Hs as [Hs HT].
  apply Forall_cons in HT as [HT _].
  destruct (step_dated st tx T Hinv HT Hdated Hordered) as [Hd Ho].
  apply (IH _ (timestamp (tx_env tx))); try done.
  by apply step_inv.
Qed.

End LedgerFacts.

Section LedgerProperties.
Import Registry.

(** X1.  After any run of transactions from the deployed contract, the
    counter [nextTaskId] is the number of [createTask] calls that
    succeeded, a task is stored exactly under the ids below the counter,
    and a receipt only under the id of a stored task. *)
Theorem counter_counts_tasks (txs : list Tx) :
  Forall valid_tx txs ->
  nextTaskId (run init txs).1
  = Z.of_nat (length (created_ids (run init txs).2)) /\
  (forall id, task_exists (run init txs).1 id
              <-> 0 <= id < nextTaskId (run init txs).1) /\
  (forall id, receipt_exists (run init txs).1 id ->
              task_exists (run init txs).1 id).
Proof.
  intros Hv.
  pose proof (reachable_inv _ (run_reachable init txs reachable_init Hv))
    as Hinv.
  split; [|split].
  - rewrite run_created_ids, length_seqZ. simpl.
    pose proof (run_counter_mono init txs). simpl in *. lia.
  - intros id. apply (inv_tasks _ Hinv).
  - intros id [r Hr]. by eapply inv_receipts.
Qed.

Lemma counter_counts_tasks_witness :
  nextTaskId (run init [sample_create sample_hash; sample_submit 0;
                        sample_create sample_hash]).1 = 2.
Proof.
  refine (eq_trans
            (proj1 (counter_counts_tasks
                      [sample_create sample_hash; sample_submit 0;
                       sample_create sample_hash] _)) _);
    [|reflexivity].
  repeat constructor; vm_compute; try discriminate.
Defined.

(** X2.  When the block times of the transactions do not go back, no
    receipt is dated before its task:  [completedAt] of a stored receipt
    is at least [createdAt] of the task of the same id. *)
Theorem receipt_not_before_task (txs : list Tx) (id : Z) (t : Task)
    (r : Receipt) :
  Forall valid_tx txs ->
  Sorted Z.le ((fun tx => timestamp (tx_env tx)) <$> txs) ->
  tasks (run init txs).1 !! id = Some t ->
  receipts (run init txs).1 !! id = Some r ->
  createdAt t <= completedAt r.
Proof.
  intros Hv Hs.
  destruct txs as [|tx txs]; [simpl; by rewrite lookup_empty|].
  apply (run_dated (tx :: txs) init (timestamp (tx_env tx)));
    try done.
  - apply registry_inv_init.
  - apply Sorted_StronglySorted in Hs; [|intros x y z; lia].
    constructor; [done|].
    constructor; [simpl; lia|].
    apply StronglySorted_inv in Hs as [_ Hs]. done.
Qed.

Lemma receipt_not_before_task_witness :
  createdAt (mkTask 1 sample_hash 1700000000)
  <= completedAt (mkReceipt 2 sample_hash sample_hash 1700000100).
Proof.
  apply (receipt_not_before_task
           [sample_create sample_hash; sample_submit_later 0] 0).
  - repeat constructor; by vm_compute.
  - repeat constructor. by vm_compute.
  - reflexivity.
  - reflexivity.
Defined.

End LedgerProperties.

(* ----------------------------------------------------------------- *)
(** ** The router and the status route *)

Section RouterFacts.
Import Ethers Registry Wrapper Tasks.

(** A text whose first character is a letter h is no number. *)
Lemma parseInt_health (c : ascii) (rest : string) :
  lower c = "h"%char -> parseInt (String c rest) = None.
Proof.
  intros Hc.
  destruct c as [[] [] [] [] [] [] [] []]; try discriminate Hc; reflexivity.
Qed.

Lemma match_health (path : string) (params : list (string * string)) :
  match_path [Lit "health"] path = Some params ->
  exists c rest,
    lower c = "h"%char /\
    match_path [Param "taskId"] path = Some [("taskId", String c rest)].
Proof.
  unfold match_path.
  destruct (split path) as [|first segs]; [done|].
  destruct first; [|done].
  destruct segs as [|seg segs]; [done|]. simpl.
  case_decide as Hseg; [|done]. intros Htail.
  destruct seg as [|c rest]; [done|].
  exists c, rest. split; [by injection Hseg|].
  rewrite decide_False by done.
  destruct segs as [|last [|? ?]]; try done.
  by destruct (decide (last = "")).
Qed.

(** The status route on the id of a stored task. *)
Lemma task_route_stored (st : State) (param : string) (n : Z) :
  registry_inv st -> parseInt param = Some n ->
  0 <= n <= MAX_SAFE_INTEGER -> n < nextTaskId st ->
  exists (task : Task) (receipt : option Receipt),
    task_route st param
    = TaskStatus n task
        (if receipt is Some _ then Client.COMPLETED else Client.PENDING)
        receipt /\
    requester task = requester (tasks_at st n) /\
    requester task <> address0 /\
    specHash task = specHash (tasks_at st n) /\
    createdAt task = Benchmark.round_double (createdAt (tasks_at st n)) /\
    (receipt = None <-> receipts st !! n = None) /\
    (forall r, receipt = Some r ->
       operator r = operator (receipts_at st n) /\
       artifactHash r = artifactHash (receipts_at st n) /\
       resultHash r = resultHash (receipts_at st n) /\
       completedAt r
       = Benchmark.round_double (completedAt (receipts_at st n))).
Proof.
  intros Hinv Hparse Hn Hnext. unfold task_route. rewrite Hparse.
  destruct (n <? 0) eqn:E; [apply Z.ltb_lt in E; lia|].
  unfold getTask, getReceipt. rewrite to_uint256_Some by done.
  cbn [mbind option_bind].
  assert (is_Some (tasks st !! n)) as [t Ht]
    by (apply (inv_tasks st Hinv); lia).
  assert (Hreq : requester (tasks_at st n) <> address0).
  { unfold tasks_at. rewrite Ht. by eapply inv_requester. }
  cbn [requester]. rewrite decide_False by done.
  destruct (decide (operator (receipts_at st n) = address0)) as [Hop|Hop].
  - eexists _, None. split; [reflexivity|]. cbn [requester specHash createdAt].
    split_and!; try done. split; [|done].
    intros _. unfold receipts_at in Hop.
    destruct (receipts st !! n) as [r|] eqn:Hr; [|done].
    by destruct (inv_receipts st Hinv n r Hr).
  - eexists _, (Some _). split; [reflexivity|].
    cbn [requester specHash createdAt].
    split_and!; try done.
    + split; [done|].
      intros Hnone. unfold receipts_at in Hop. by rewrite Hnone in Hop.
    + by intros r [= <-].
Qed.

End RouterFacts.

Section RouterProperties.
Import Ethers Registry Wrapper Tasks.

(** X3.  The route GET /health is never reached: the router gives no
    request to its handler.  A request that the route would match is
    matched by GET /:taskId, registered before it, with the text
    [health] as task id, and is answered with status 400, "Invalid task
    ID". *)
Theorem health_route_shadowed :
  (forall (m : Method) (path : string) (h : Handler)
          (params : list (string * string)),
      dispatch m path = Some (h, params) -> h <> health_handler) /\
  (forall (m : Method) (path : string) (params : list (string * string)),
      handles GET m = true ->
      match_path [Lit "health"] path = Some params ->
      exists text,
        dispatch m path = Some (task_handler, [("taskId", text)]) /\
        forall st, task_route st text = Status400 "Invalid task ID").
Proof.
  assert (Hget : forall m path params,
             handles GET m = true ->
             match_path [Lit "health"] path = Some params ->
             exists text,
               dispatch m path = Some (task_handler, [("taskId", text)]) /\
               forall st, task_route st text = Status400 "Invalid task ID").
  { intros m path params Hm Hmatch.
    apply match_health in Hmatch as (c & rest & Hc & Htask).
    exists (String c rest). split.
    - unfold dispatch, router, dispatch_in.
      assert (Hpost : handles POST m = false) by (by destruct m).
      rewrite Hpost, Hm, Htask. done.
    - intros st. unfold task_route. by rewrite parseInt_health. }
  split; [|exact Hget].
  intros m path h params Hd ->.
  unfold dispatch, router, dispatch_in in Hd.
  destruct (handles POST m) eqn:Hpost.
  { destruct (match_path [Lit "create"] path); [done|].
    destruct (match_path [Lit "execute"; Param "taskId"] path); [done|].
    by destruct m. }
  destruct (handles GET m) eqn:Hm; [|done].
  destruct (match_path [Param "taskId"] path) eqn:Htask; [done|].
  destruct (match_path [Lit "health"] path) as [ps|] eqn:Hhealth; [|done].
  apply match_health in Hhealth as (c & rest & _ & Heq). congruence.
Qed.

Lemma health_route_shadowed_witness :
  exists text,
    dispatch GET "/health" = Some (task_handler, [("taskId", text)]) /\
    forall st, task_route st text = Status400 "Invalid task ID".
Proof.
  apply (proj2 health_route_shadowed GET "/health" []); reflexivity.
Defined.

(** X4.  GET /tasks/:taskId in a reachable state of the ledger, by the
    text of the parameter.  No number, or a negative one: status 400.
    An integer beyond 2^53 - 1: status 500, the contract call cannot be
    encoded.  An id that the counter has not reached: status 404.  An id
    below the counter: the stored task, with status COMPLETED and the
    stored receipt when there is one, PENDING and null when not. *)
Theorem task_route_answers (st : State) (param : string) :
  reachable st ->
  (parseInt param = None ->
   task_route st param = Status400 "Invalid task ID") /\
  (forall n : Z,
      parseInt param = Some n ->
      (n < 0 -> task_route st param = Status400 "Invalid task ID") /\
      (MAX_SAFE_INTEGER < n -> task_route st param = Status500) /\
      (0 <= n <= MAX_SAFE_INTEGER -> nextTaskId st <= n ->
       task_route st param = Status404 "Task not found") /\
      (0 <= n <= MAX_SAFE_INTEGER -> n < nextTaskId st ->
       exists (task : Task) (receipt : option Receipt),
         task_route st param
         = TaskStatus n task
             (if receipt is Some _ then Client.COMPLETED else Client.PENDING)
             receipt /\
         requester task = requester (tasks_at st n) /\
         requester task <> address0 /\
         specHash task = specHash (tasks_at st n) /\
         createdAt task = Benchmark.round_double (createdAt (tasks_at st n)) /\
         (receipt = None <-> receipts st !! n = None) /\
         (forall r, receipt = Some r ->
            operator r = operator (receipts_at st n) /\
            artifactHash r = artifactHash (receipts_at st n) /\
            resultHash r = resultHash (receipts_at st n) /\
            completedAt r
            = Benchmark.round_double (completedAt (receipts_at st n))))).
Proof.
  intros Hreach. pose proof (reachable_inv st Hreach) as Hinv.
  split; [unfold task_route; by intros ->|].
  intros n Hparse. split; [|split; [|split]].
  - intros Hn. unfold task_route. rewrite Hparse.
    destruct (n <? 0) eqn:E; [done|apply Z.ltb_ge in E; lia].
  - intros Hn. unfold task_route. rewrite Hparse.
    destruct (n <? 0) eqn:E;
      [apply Z.ltb_lt in E; unfold MAX_SAFE_INTEGER in Hn; lia|].
    unfold getTask. by rewrite to_uint256_None.
  - intros Hn Hnext. unfold task_route. rewrite Hparse.
    destruct (n <? 0) eqn:E; [apply Z.ltb_lt in E; lia|].
    unfold getTask. rewrite to_uint256_Some by done. simpl.
    rewrite decide_True; [done|].
    unfold tasks_at. destruct (tasks st !! n) as [t|] eqn:Ht; [|done].
    assert (is_Some (tasks st !! n)) as Hs by eauto.
    apply (inv_tasks st Hinv) in Hs. lia.
  - intros Hn Hnext. by apply task_route_stored.
Qed.

Lemma task_route_answers_witness :
  task_route sample_state "1" = Status404 "Task not found" /\
  task_route sample_state "0x0"
  = TaskStatus 0 (mkTask 1 sample_hash 1700000000) Client.PENDING None.
Proof.
  destruct (task_route_answers sample_state "1" sample_state_reachable)
    as [_ Hn].
  destruct (Hn 1 eq_refl) as (_ & _ & H404 & _).
  split; [|reflexivity].
  apply H404; [split; discriminate|discriminate].
Defined.

End RouterProperties.

Section DecimalFacts.
Import Ethers Tasks.

Lemma digit_value_pretty (d : N) :
  (d < 10)%N -> digit_value 10 (pretty_N_char d) = Some d.
Proof.
  intros Hd.
  assert (d = 0 \/ d = 1 \/ d = 2 \/ d = 3 \/ d = 4 \/ d = 5 \/ d = 6 \/
          d = 7 \/ d = 8 \/ d = 9)%N as Hcases by lia.
  by repeat (destruct Hcases as [->|Hcases]; [reflexivity|]); subst.
Qed.

(** Reading the digits that [pretty] writes gives the number back. *)
Lemma digits_pretty_go (x : N) :
  forall s : string,
    (0 < x)%N ->
    digits 10 (pretty_N_go x s) None = digits 10 s (Some x).
Proof.
  induction (N.lt_wf_0 x) as [x _ IH]. intros s Hx.
  rewrite pretty_N_go_step by done.
  assert (Hmod : (x mod 10 < 10)%N) by (apply N.mod_lt; lia).
  destruct (decide (x `div` 10 = 0)%N) as [Hz|Hnz].
  - rewrite Hz, pretty_N_go_0. simpl digits.
    rewrite digit_value_pretty by done. simpl default.
    do 2 f_equal. apply N.div_small_iff in Hz; [|done].
    rewrite N.mod_small by done. lia.
  - rewrite IH; [|apply N.div_lt; lia|by apply N.neq_0_lt_0]. simpl digits.
    rewrite digit_value_pretty by done. simpl default.
    do 2 f_equal. symmetry. apply N.div_mod. done.
Qed.

(** The text of a positive number starts with a digit from 1 to 9. *)
Lemma pretty_go_head (x : N) :
  forall s : string,
    (0 < x)%N ->
    exists (d : N) (rest : string),
      (1 <= d < 10)%N /\ pretty_N_go x s = String (pretty_N_char d) rest.
Proof.
  induction (N.lt_wf_0 x) as [x _ IH]. intros s Hx.
  rewrite pretty_N_go_step by done.
  destruct (decide (x `div` 10 = 0)%N) as [Hz|Hnz].
  - rewrite Hz, pretty_N_go_0. exists (x mod 10)%N, s. split; [|done].
    apply N.div_small_iff in Hz; [|done].
    rewrite N.mod_small by done. lia.
  - apply IH; [apply N.div_lt; lia|by apply N.neq_0_lt_0].
Qed.

Lemma parseInt_digits (d : N) (rest : string) (x : N) :
  (1 <= d < 10)%N ->
  digits 10 (String (pretty_N_char d) rest) None = Some x ->
  parseInt (String (pretty_N_char d) rest)
  = Some (Benchmark.round_double (Z.of_N x)) /\
  parseInt (String "-" (String (pretty_N_char d) rest))
  = Some (Benchmark.round_double (- Z.of_N x)).
Proof.
  intros Hd.
  assert (d = 1 \/ d = 2 \/ d = 3 \/ d = 4 \/ d = 5 \/ d = 6 \/
          d = 7 \/ d = 8 \/ d = 9)%N as Hcases by lia.
  unfold parseInt. generalize Benchmark.round_double. intros round.
  repeat (destruct Hcases as [->|Hcases];
          [simpl; intros ->; simpl; split; do 2 f_equal; lia|]).
  subst. simpl. intros ->. simpl. split; do 2 f_equal; lia.
Qed.

(** [parseInt] reads the decimal text of an integer as that integer,
    as far as the integers are Numbers. *)
Lemma parseInt_pretty (n : Z) :
  Z.abs n < 2 ^ 53 -> parseInt (pretty n) = Some n.
Proof.
  intros Hn. rewrite <- (round_double_small n Hn) at 2.
  destruct n as [|p|p]; [reflexivity| |].
  - unfold pretty, pretty_Z, pretty, pretty_positive, pretty, pretty_N.
    rewrite decide_False by done.
    destruct (pretty_go_head (N.pos p) "" ltac:(lia)) as (d & rest & Hd & Hs).
    pose proof (digits_pretty_go (N.pos p) "" ltac:(lia)) as Hdigits.
    rewrite Hs in *. simpl (digits 10 "" _) in Hdigits.
    by destruct (parseInt_digits d rest (N.pos p) Hd Hdigits) as [-> _].
  - unfold pretty, pretty_Z, pretty, pretty_positive, pretty, pretty_N.
    rewrite decide_False by done.
    destruct (pretty_go_head (N.pos p) "" ltac:(lia)) as (d & rest & Hd & Hs).
    pose proof (digits_pretty_go (N.pos p) "" ltac:(lia)) as Hdigits.
    rewrite Hs in *. simpl (digits 10 "" _) in Hdigits.
    change (parseInt (String "-" (String (pretty_N_char d) rest))
            = Some (Benchmark.round_double (Z.neg p))).
    by destruct (parseInt_digits d rest (N.pos p) Hd Hdigits) as [_ ->].
Qed.

End DecimalFacts.

Section DecimalProperties.
Import Ethers JSON FS Hash Artifacts Registry Wrapper Tasks.

(** X5.  The decimal text of a task id, as a template string writes it
    into a request path, is read by [parseInt] as that id; so GET
    /tasks/n for an id n below the counter of a reachable ledger (and
    below 2^53) answers with the status of task n. *)
Theorem task_route_by_decimal_id (st : State) (n : Z) :
  reachable st -> 0 <= n < nextTaskId st -> n <= MAX_SAFE_INTEGER ->
  parseInt (pretty n) = Some n /\
  exists (task : Task) (receipt : option Receipt),
    task_route st (pretty n)
    = TaskStatus n task
        (if receipt is Some _ then Client.COMPLETED else Client.PENDING)
        receipt /\
    requester task = requester (tasks_at st n) /\
    specHash task = specHash (tasks_at st n).
Proof.
  intros Hreach Hn Hsafe.
  assert (Hnum : Z.abs n < 2 ^ 53) by (unfold MAX_SAFE_INTEGER in Hsafe; lia).
  split; [by apply parseInt_pretty|].
  destruct (task_route_stored st (pretty n) n) as
    (task & receipt & Hroute & Hreq & _ & Hspec & _);
    [by apply reachable_inv|by apply parseInt_pretty|lia|lia|].
  by exists task, receipt.
Qed.

Lemma task_route_by_decimal_id_witness :
  exists (task : Task) (receipt : option Receipt),
    task_route sample_state "0"
    = TaskStatus 0 task
        (if receipt is Some _ then Client.COMPLETED else Client.PENDING)
        receipt /\
    requester task = 1.
Proof.
  destruct (task_route_by_decimal_id sample_state 0 sample_state_reachable)
    as (_ & task & receipt & Hroute & Hreq & _).
  - split; by vm_compute.
  - by vm_compute.
  - by exists task, receipt.
Defined.

End DecimalProperties.

(* ----------------------------------------------------------------- *)
(** ** Task creation *)

Section CreateFacts.
Import Ethers JSON Hash Registry Wrapper Tasks.

(** What the wrapper's [createTask] does, by the outcome of the
    contract call. *)
Lemma wrapper_createTask_eq (st : State) (env : Env) (specHash : string)
    (h : bytes32) :
  to_bytes32 specHash = Some h ->
  Wrapper.createTask st env specHash =
    if decide (h = zero32) then (st, None)
    else if decide (nextTaskId st = MAX_UINT256) then (st, None)
    else
      (mkState (nextTaskId st + 1)
         (<[nextTaskId st := mkTask (sender env) h (timestamp env)]>
            (tasks st))
         (receipts st),
       Some (Benchmark.round_double (nextTaskId st))).
Proof.
  intros Hh. unfold Wrapper.createTask, Registry.createTask. rewrite Hh.
  by repeat case_decide.
Qed.

End CreateFacts.

Section CreateProperties.
Import Ethers JSON Hash Registry Wrapper Tasks.

(** X6.  The wrapper's [createTask].  When it throws, no task has been
    created: the error "TaskCreated event not found" never comes up
    after a transaction that went through.  For a hash of 32 bytes other
    than the zero digest and a counter below 2^53, it returns the id
    under which the task is stored, with the hash, the sender and the
    block time.  From 2^53 on the Number it returns need not be that id:
    at 2^53 + 1 it returns 2^53. *)
Theorem wrapper_createTask_id (st : State) (env : Env) (specHash : string) :
  (forall st', Wrapper.createTask st env specHash = (st', None) -> st' = st) /\
  (forall h : bytes32,
      to_bytes32 specHash = Some h -> h <> zero32 ->
      0 <= nextTaskId st < 2 ^ 53 ->
      exists st',
        Wrapper.createTask st env specHash = (st', Some (nextTaskId st)) /\
        nextTaskId st' = nextTaskId st + 1 /\
        tasks st' !! nextTaskId st
        = Some (mkTask (sender env) h (timestamp env))) /\
  (forall h : bytes32,
      to_bytes32 specHash = Some h -> h <> zero32 ->
      nextTaskId st = 2 ^ 53 + 1 ->
      exists st',
        Wrapper.createTask st env specHash = (st', Some (2 ^ 53)) /\
        tasks st' !! (2 ^ 53 + 1)
        = Some (mkTask (sender env) h (timestamp env))).
Proof.
  split; [|split].
  - intros st'. unfold Wrapper.createTask.
    destruct (to_bytes32 specHash) as [h|]; [|by intros [= <-]].
    unfold Registry.createTask. by repeat case_decide; simpl; intros [= <-].
  - intros h Hh Hz Hn. rewrite (wrapper_createTask_eq _ _ _ h Hh).
    rewrite decide_False by done.
    rewrite decide_False by (unfold MAX_UINT256; lia).
    rewrite round_double_small by lia.
    eexists. split; [reflexivity|]. simpl. by rewrite lookup_insert_eq.
  - intros h Hh Hz Hn. rewrite (wrapper_createTask_eq _ _ _ h Hh).
    rewrite decide_False by done.
    rewrite decide_False by (unfold MAX_UINT256; lia).
    rewrite Hn. eexists. split; [reflexivity|]. simpl.
    by rewrite lookup_insert_eq.
Qed.

Lemma wrapper_createTask_id_witness :
  exists st',
    Wrapper.createTask sample_state sample_env (hexlify sample_hash)
    = (st', Some 1) /\
    nextTaskId st' = 2 /\
    tasks st' !! 1 = Some (mkTask 1 sample_hash 1700000000).
Proof.
  apply (proj1 (proj2 (wrapper_createTask_id sample_state sample_env
                         (hexlify sample_hash))) sample_hash).
  - reflexivity.
  - by vm_compute.
  - split; by vm_compute.
Defined.

(** X7.  POST /tasks/create.  The text that is hashed holds the type,
    the duration and the creation time of the specification, and an
    empty config.  When its digest has 32 bytes and is not the zero
    digest, and the counter is below 2^53, the route answers with the
    counter as task id and the digest as spec hash, and the ledger then
    holds under that id a task with that digest, the backend's account
    as requester and the block time.  When the digest is the zero digest
    the route fails and the ledger stays as it was. *)
Theorem create_route_commits `{Keccak} (st : State) (env : Env)
    (t : TaskSpec) (digest : list byte) :
  digest
  = keccak256_bytes
      (toUtf8Bytes
         (stringify (JObj (taskSpec_object t))
            (Some (sort (Object_keys (taskSpec_object t)))) 0)) ->
  stringify (JObj (taskSpec_object t))
    (Some (sort (Object_keys (taskSpec_object t)))) 0
  = "{" +:+ String.concat ","
               [ member "" ("config", "{}");
                 member "" ("createdAt", quote (Hash.createdAt t));
                 member "" ("duration", num_to_string (duration t));
                 member "" ("type", quote (type t)) ]
    +:+ "}" /\
  (length digest = 32%nat -> digest <> zero32 ->
   0 <= nextTaskId st < 2 ^ 53 ->
   exists st',
     create_route st env t
     = (st', CreateOk (nextTaskId st) (hexlify digest) t) /\
     nextTaskId st' = nextTaskId st + 1 /\
     tasks st' !! nextTaskId st
     = Some (mkTask (sender env) digest (timestamp env))) /\
  (length digest <> 32%nat \/ digest = zero32 ->
   create_route st env t = (st, CreateFailed)).
Proof.
  intros Hd. split; [apply taskSpec_sortedJSON|].
  assert (Hhash : hashJSON (taskSpec_object t) = Some (hexlify digest)).
  { unfold hashJSON. by rewrite keccak256_Bytes, Hd. }
  unfold create_route. rewrite Hhash. split.
  - intros Hlen Hz Hn.
    assert (Hb : to_bytes32 (hexlify digest) = Some digest).
    { unfold to_bytes32, hexlify. rewrite getBytes_hexlify. simpl.
      by rewrite decide_True. }
    rewrite (wrapper_createTask_eq _ _ _ digest Hb).
    rewrite decide_False by done.
    rewrite decide_False by (unfold MAX_UINT256; lia).
    rewrite round_double_small by lia.
    eexists. split; [reflexivity|]. simpl. by rewrite lookup_insert_eq.
  - intros [Hlen|Hz].
    + unfold Wrapper.createTask, to_bytes32, hexlify.
      rewrite getBytes_hexlify. simpl. by rewrite decide_False.
    + destruct (decide (length digest = 32%nat)) as [Hlen|Hlen].
      * assert (Hb : to_bytes32 (hexlify digest) = Some digest).
        { unfold to_bytes32, hexlify. rewrite getBytes_hexlify. simpl.
          by rewrite decide_True. }
        rewrite (wrapper_createTask_eq _ _ _ digest Hb).
        by rewrite decide_True.
      * unfold Wrapper.createTask, to_bytes32, hexlify.
        rewrite getBytes_hexlify. simpl. by rewrite decide_False.
Qed.

Lemma create_route_commits_witness :
  exists (st' : State) (digest : list byte),
    @create_route sample_keccak sample_state sample_env spec_100MB
    = (st', CreateOk 1 (hexlify digest) spec_100MB) /\
    nextTaskId st' = 2 /\
    tasks st' !! 1 = Some (mkTask 1 digest 1700000000).
Proof.
  pose (digest :=
          @keccak256_bytes sample_keccak
            (toUtf8Bytes
               (stringify (JObj (taskSpec_object spec_100MB))
                  (Some (sort (Object_keys (taskSpec_object spec_100MB))))
                  0))).
  destruct (proj1 (proj2 (@create_route_commits sample_keccak sample_state
                            sample_env spec_100MB digest eq_refl)))
    as (st' & Hrun & Hnext & Htask).
  - reflexivity.
  - by vm_compute.
  - split; by vm_compute.
  - exists st', digest. split; [exact Hrun|]. split; [exact Hnext|exact Htask].
Defined.

End CreateProperties.

(* ----------------------------------------------------------------- *)
(** ** The two hashes *)

Section KeyOrderFacts.
Import Ethers JSON FS Hash.

(** With no name twice, looking a name up finds the property of that
    name wherever it stands. *)
Lemma assoc_Some {A : Type} (k : string) (v : A) (props : list (string * A)) :
  NoDup (map fst props) -> assoc k props = Some v <-> (k, v) ∈ props.
Proof.
  induction props as [|[k' v'] props IH]; intros Hnd.
  - simpl. split; [done|]. by intros ?%elem_of_nil.
  - simpl in *. apply NoDup_cons in Hnd as [Hk' Hnd].
    case_decide as Hk.
    + subst k'. split.
      * intros [= ->]. by left.
      * intros [[= ->]|Hin]%elem_of_cons; [done|].
        exfalso. apply Hk'. apply list_elem_of_fmap. by exists (k, v).
    + rewrite (IH Hnd). split; [by right|].
      intros [[= -> ->]|Hin]%elem_of_cons; done.
Qed.

Lemma assoc_permutation {A : Type} (k : string) (props1 props2 : list (string * A)) :
  NoDup (map fst props1) -> props1 ≡ₚ props2 ->
  assoc k props1 = assoc k props2.
Proof.
  intros Hnd Hp.
  assert (Hnd2 : NoDup (map fst props2)).
  { assert (Hp' : map fst props1 ≡ₚ map fst props2)
      by (by apply Permutation_map).
    by rewrite <- Hp'. }
  apply option_eq. intros v.
  rewrite !assoc_Some by done. by rewrite Hp.
Qed.

Lemma serialize_JObj (K : option (list string)) (gap indent : string)
    (props : list (string * json)) :
  serialize K gap indent (JObj props) =
    wrap "{" "}" gap (indent +:+ gap) indent
      (match K with
       | None =>
           map (member gap)
             (map (fun p => (fst p, serialize K gap (indent +:+ gap) (snd p)))
                props)
       | Some keys =>
           omap (fun k =>
                   (fun s => member gap (k, s)) <$>
                   assoc k (map (fun p => (fst p,
                                           serialize K gap (indent +:+ gap)
                                             (snd p))) props))
             keys
       end).
Proof. reflexivity. Qed.

End KeyOrderFacts.

Section HashProperties.
Import Ethers JSON FS Hash.

(** X8.  [hashJSON] does not depend on the order in which the object
    holds its properties: two objects with the same properties, no name
    twice, have the same hash. *)
Theorem hashJSON_key_order `{Keccak} (obj1 obj2 : list (string * json)) :
  NoDup (Object_keys obj1) -> obj1 ≡ₚ obj2 ->
  hashJSON obj1 = hashJSON obj2.
Proof.
  intros Hnd Hp. unfold hashJSON, stringify, Object_keys in *.
  do 2 f_equal.
  assert (Hkeys : sort (map fst obj1) = sort (map fst obj2))
    by (apply sort_permutation; by apply Permutation_map).
  rewrite <- Hkeys. cbn [serialize]. do 2 f_equal.
  set (f := fun p : string * json => (p.1, serialize _ _ _ p.2)).
  assert (Hassoc : forall k, assoc k (map f obj1) = assoc k (map f obj2)).
  { intros k. apply assoc_permutation.
    - rewrite map_map. simpl. exact Hnd.
    - by apply Permutation_map. }
  apply list_omap_ext, Forall_Forall2_diag, Forall_forall.
  intros k _. by rewrite Hassoc.
Qed.

Lemma hashJSON_key_order_witness :
  @hashJSON sample_keccak [("type", JStr "SERVER_BENCHMARK");
                           ("duration", JNum (Int 30))]
  = @hashJSON sample_keccak [("duration", JNum (Int 30));
                             ("type", JStr "SERVER_BENCHMARK")].
Proof.
  apply (@hashJSON_key_order sample_keccak).
  - apply (bool_decide_unpack _). by vm_compute.
  - apply perm_swap.
Defined.

(** X9.  The artifact hash holds nothing of the file names but their
    order: two directories whose regular files, taken by ascending name,
    have the same contents one after the other have the same hash,
    whatever the files are called and whatever directories lie among
    them. *)
Theorem hashArtifactFolder_ignores_names `{Keccak} `{Readdir} `{!ReaddirSpec}
    (disk1 disk2 : Disk) (path1 path2 : string) (folder1 folder2 : Folder) :
  disk1 !! path1 = Some folder1 -> disk2 !! path2 = Some folder2 ->
  regular_files folder1 (sort (map_to_list folder1).*1)
  = regular_files folder2 (sort (map_to_list folder2).*1) ->
  hashArtifactFolder disk1 path1 = hashArtifactFolder disk2 path2.
Proof.
  intros Hd1 Hd2 Hfiles.
  rewrite (hashArtifactFolder_digest disk1 path1 folder1 Hd1).
  rewrite (hashArtifactFolder_digest disk2 path2 folder2 Hd2).
  unfold artifact_digest. by rewrite Hfiles.
Qed.

Lemma hashArtifactFolder_ignores_names_witness :
  @hashArtifactFolder sample_keccak sample_readdir sample_disk
    "artifacts/task-0"
  = @hashArtifactFolder sample_keccak sample_readdir renamed_disk "copy".
Proof.
  apply (@hashArtifactFolder_ignores_names sample_keccak sample_readdir
           sample_readdir_spec sample_disk renamed_disk
           "artifacts/task-0" "copy" sample_folder renamed_folder).
  - reflexivity.
  - reflexivity.
  - by vm_compute.
Defined.

End HashProperties.

(* ----------------------------------------------------------------- *)
(** ** The directory of a task *)

Section FolderFacts.
Import Ethers JSON FS Hash Artifacts.

Lemma property_defined (v : json) (name : string) :
  v <> JNull -> exists x, property (Some v) name = Some x.
Proof. destruct v; simpl; eauto. done. Qed.

Lemma property_null (v : option json) (name : string) (x : option json) :
  property v name = Some x -> exists w, v = Some w /\ w <> JNull.
Proof. destruct v as [[]|]; simpl; try done; eauto. Qed.

(** The metrics can be read off the results exactly when the results
    hold the three tests. *)
Lemma metrics_of_Some (results : json) :
  is_Some (metrics_of results) <->
  exists tests cpu memory disk : json,
    property (Some results) "tests" = Some (Some tests) /\
    property (Some tests) "cpu" = Some (Some cpu) /\
    property (Some tests) "memory" = Some (Some memory) /\
    property (Some tests) "disk" = Some (Some disk) /\
    cpu <> JNull /\ memory <> JNull /\ disk <> JNull.
Proof.
  unfold metrics_of. cbv zeta. split.
  - intros [m Hm].
    destruct (property (Some results) "totalDurationMs") as [x1|];
      cbn -[property] in Hm; [|discriminate Hm].
    destruct (property (Some results) "timestamp") as [x2|];
      cbn -[property] in Hm; [|discriminate Hm].
    destruct (property (Some results) "systemInfo") as [x3|];
      cbn -[property] in Hm; [|discriminate Hm].
    destruct (property (Some results) "tests") as [tests|] eqn:Ht;
      cbn -[property] in Hm; [|discriminate Hm].
    destruct (property tests "cpu") as [cpu|] eqn:Hc; cbn -[property] in Hm; [|discriminate Hm].
    destruct (property cpu "opsPerSecond") as [x4|] eqn:H4;
      cbn -[property] in Hm; [|discriminate Hm].
    destruct (property tests "memory") as [memory|] eqn:Hme;
      cbn -[property] in Hm; [|discriminate Hm].
    destruct (property memory "writeMBps") as [x5|] eqn:H5;
      cbn -[property] in Hm; [|discriminate Hm].
    destruct (property memory "readMBps") as [x6|]; cbn -[property] in Hm; [|discriminate Hm].
    destruct (property tests "disk") as [disk|] eqn:Hd; cbn -[property] in Hm; [|discriminate Hm].
    destruct (property disk "writeMBps") as [x7|] eqn:H7;
      cbn -[property] in Hm; [|discriminate Hm].
    apply property_null in Hc as Hc'. destruct Hc' as (t & -> & Htn).
    apply property_null in H4 as (c & -> & Hcn).
    apply property_null in H5 as (me & -> & Hmn).
    apply property_null in H7 as (di & -> & Hdn).
    by exists t, c, me, di.
  - intros (tests & cpu & memory & disk & Ht & Hc & Hme & Hd & Hcn & Hmn & Hdn).
    apply property_null in Ht as Hr. destruct Hr as (w & [= <-] & Hrn).
    destruct (property_defined results "totalDurationMs" Hrn) as [x1 ->].
    destruct (property_defined results "timestamp" Hrn) as [x2 ->].
    destruct (property_defined results "systemInfo" Hrn) as [x3 ->].
    rewrite Ht. cbn -[property]. rewrite Hc. cbn -[property].
    destruct (property_defined cpu "opsPerSecond" Hcn) as [x4 ->]. cbn -[property].
    rewrite Hme. cbn -[property].
    destruct (property_defined memory "writeMBps" Hmn) as [x5 ->].
    destruct (property_defined memory "readMBps" Hmn) as [x6 ->]. cbn -[property].
    rewrite Hd. cbn -[property].
    destruct (property_defined disk "writeMBps" Hdn) as [x7 ->].
    destruct (property_defined disk "readMBps" Hdn) as [x8 ->]. cbn -[property].
    eauto.
Qed.

Context `{Process}.

(** When the metrics cannot be read off the results,
    [createArtifactFolder] has made the directory and written the log
    before it throws. *)
Lemma createArtifactFolder_throws (taskId : Z) (results : json)
    (logs : list string) (d : Disk) :
  metrics_of results = None ->
  createArtifactFolder taskId results logs d
  = (<[artifact_path taskId :=
         {["execution.log" :=
             File (toUtf8Bytes (String.concat newline logs +:+ newline))]}]>
       (delete (artifact_path taskId) d),
     None).
Proof.
  intros Hm. unfold createArtifactFolder, bind, writing at 1 2, remove, ensureDir.
  rewrite lookup_delete_eq.
  unfold writing at 1.
  rewrite (writeFile_fresh _ _ _ ∅) by (by rewrite ?lookup_insert_eq).
  unfold reading. rewrite Hm. by rewrite insert_insert_eq.
Qed.

End FolderFacts.

Section FolderProperties.
Import Ethers JSON FS Hash Artifacts.

(** X11.  [createArtifactFolder] on results that hold the three tests,
    for a task id from 0 to 2^53 - 1: it returns the path of the
    directory of the task, and that directory then holds execution.log,
    metrics.json and result.json with the log lines, the metrics and the
    results as their text, and nothing else, whatever it held before. *)
Theorem createArtifactFolder_replaces `{Process} (taskId : Z)
    (results metrics : json) (logs : list string) (d : Disk) :
  0 <= taskId <= Wrapper.MAX_SAFE_INTEGER ->
  metrics_of results = Some metrics ->
  exists d' : Disk,
    createArtifactFolder taskId results logs d
    = (d', Some (artifact_path taskId)) /\
    (forall name : string,
        stat d' (artifact_path taskId) name =
          if decide (name = "result.json") then
            Some (File (toUtf8Bytes (stringify results None 2)))
          else if decide (name = "metrics.json") then
            Some (File (toUtf8Bytes (stringify metrics None 2)))
          else if decide (name = "execution.log") then
            Some (File (toUtf8Bytes (String.concat newline logs +:+ newline)))
          else None).
Proof.
  intros _ Hm. eexists. split; [by apply createArtifactFolder_ok|].
  intros name. unfold stat. rewrite lookup_insert_eq. simpl.
  unfold artifact_folder. rewrite !lookup_insert.
  repeat case_decide; try done; by subst.
Qed.

Lemma createArtifactFolder_replaces_witness :
  exists d' : Disk,
    @createArtifactFolder sample_process 0 sample_results ["run"]
      stale_disk
    = (d', Some (@artifact_path sample_process 0)) /\
    stat d' (@artifact_path sample_process 0) "stale.txt" = None.
Proof.
  destruct (metrics_of sample_results) as [metrics|] eqn:Hm;
    [|by vm_compute in Hm].
  assert (Hid : 0 <= 0 <= Wrapper.MAX_SAFE_INTEGER) by (split; discriminate).
  destruct (@createArtifactFolder_replaces sample_process 0 sample_results
              metrics ["run"] stale_disk Hid Hm) as (d' & Hrun & Hstat).
  exists d'. split; [exact Hrun|]. by rewrite Hstat.
Defined.

(** X12.  [createArtifactFolder] returns exactly when the results hold
    the tests [cpu], [memory] and [disk] (its [tests] property has these
    three as properties, none of them null).  On other results it
    throws, and by then (for a task id from 0 to 2^53 - 1) the
    directory of the task holds execution.log alone. *)
Theorem createArtifactFolder_partial `{Process} (taskId : Z)
    (results : json) (logs : list string) (d : Disk) :
  ((exists d' p, createArtifactFolder taskId results logs d = (d', Some p))
   <->
   exists tests cpu memory disk : json,
     property (Some results) "tests" = Some (Some tests) /\
     property (Some tests) "cpu" = Some (Some cpu) /\
     property (Some tests) "memory" = Some (Some memory) /\
     property (Some tests) "disk" = Some (Some disk) /\
     cpu <> JNull /\ memory <> JNull /\ disk <> JNull) /\
  (forall d',
     0 <= taskId <= Wrapper.MAX_SAFE_INTEGER ->
     createArtifactFolder taskId results logs d = (d', None) ->
     forall name : string,
       stat d' (artifact_path taskId) name =
         if decide (name = "execution.log") then
           Some (File (toUtf8Bytes (String.concat newline logs +:+ newline)))
         else None).
Proof.
  split.
  - rewrite <- metrics_of_Some. split.
    + intros (d' & p & Hrun). by eapply createArtifactFolder_Some.
    + intros [metrics Hm]. rewrite (createArtifactFolder_ok _ _ _ _ _ Hm).
      eauto.
  - intros d' _. destruct (metrics_of results) as [metrics|] eqn:Hm.
    + by rewrite (createArtifactFolder_ok _ _ _ _ _ Hm).
    + rewrite (createArtifactFolder_throws _ _ _ _ Hm). intros [= <-] name.
      unfold stat. rewrite lookup_insert_eq. simpl.
      case_decide as Hn.
      * subst name. by rewrite lookup_singleton_eq.
      * by rewrite lookup_singleton_ne.
Qed.

Lemma createArtifactFolder_partial_witness :
  exists d',
    @createArtifactFolder sample_process 0 (JObj [("tests", JObj [])]) ["run"]
      stale_disk = (d', None) /\
    stat d' (@artifact_path sample_process 0) "execution.log"
    = Some (File (toUtf8Bytes ("run" +:+ newline))) /\
    stat d' (@artifact_path sample_process 0) "stale.txt" = None.
Proof.
  pose proof (@createArtifactFolder_throws sample_process 0
                (JObj [("tests", JObj [])]) ["run"] stale_disk eq_refl)
    as Hrun.
  assert (Hid : 0 <= 0 <= Wrapper.MAX_SAFE_INTEGER) by (split; discriminate).
  pose proof (proj2 (@createArtifactFolder_partial sample_process 0
                       (JObj [("tests", JObj [])]) ["run"] stale_disk)
                _ Hid Hrun) as Hstat.
  eexists. split; [exact Hrun|].
  split; [exact (Hstat "execution.log")|exact (Hstat "stale.txt")].
Defined.

End FolderProperties.

Section ExecuteFacts.
Import Ethers JSON FS Hash Artifacts Route.

Lemma to_bytes32_digest (bs : list byte) :
  length bs = 32%nat -> to_bytes32 (hexlify bs) = Some bs.
Proof.
  intros Hlen. unfold to_bytes32, hexlify. rewrite getBytes_hexlify. simpl.
  by rewrite decide_True.
Qed.

(** [processArtifacts] on results that hold the three tests. *)
Lemma processArtifacts_ok `{Keccak} `{Readdir} `{!ReaddirSpec} `{Greenfield}
    `{Process} (taskId : Z) (results metrics : json) (logs : list string)
    (createdAt : string) (d : Disk) :
  metrics_of results = Some metrics ->
  processArtifacts taskId results logs createdAt d
  = (<[artifact_path taskId :=
         <["receipt.json" :=
             File (toUtf8Bytes
                     (stringify
                        (JObj
                           [ ("taskId", JNum (Int taskId));
                             ("artifactHash",
                               JStr (hexlify
                                       (artifact_digest
                                          (artifact_folder results metrics
                                             logs))));
                             ("resultHash",
                               JStr (hexlify
                                       (keccak256_bytes
                                          (toUtf8Bytes
                                             (stringify results None 2)))));
                             ("artifactUrl", JStr (greenfield_url taskId));
                             ("createdAt", JStr createdAt);
                             ("operator", JStr "infraproof-backend") ])
                        None 2))]>
           (artifact_folder results metrics logs)]>
       (delete (artifact_path taskId) d),
     Some (mkProcessed (artifact_path taskId) (greenfield_url taskId)
             (hexlify (artifact_digest (artifact_folder results metrics logs)))
             (hexlify (keccak256_bytes
                         (toUtf8Bytes (stringify results None 2)))))).
Proof.
  intros Hm. unfold processArtifacts, bind at 1.
  rewrite (createArtifactFolder_ok _ _ _ _ _ Hm).
  unfold bind at 1, reading at 1. rewrite uploadToGreenfield_url.
  unfold bind at 1, reading at 1.
  rewrite (hashArtifactFolder_digest _ _ (artifact_folder results metrics logs))
    by (by rewrite lookup_insert_eq).
  unfold bind at 1, reading at 1, readFile, stat.
  rewrite lookup_insert_eq. simpl.
  unfold artifact_folder at 1. rewrite lookup_insert_eq.
  unfold bind at 1, reading at 1. rewrite keccak256_Bytes.
  unfold bind, createReceipt, writing.
  rewrite (writeFile_fresh _ _ _ (artifact_folder results metrics logs))
    by (by rewrite ?lookup_insert_eq).
  unfold ret. by rewrite insert_insert_eq.
Qed.

Lemma route_submitReceipt_None (st : Registry.State) (env : Registry.Env)
    (taskId : Z) (ah rh : string) :
  Registry.requester (Registry.tasks_at st taskId) = Registry.address0 \/
  Registry.operator (Registry.receipts_at st taskId) <> Registry.address0 ->
  submitReceipt st env taskId ah rh = None.
Proof.
  intros Hcase. unfold submitReceipt.
  destruct (Wrapper.to_uint256 taskId) as [id|] eqn:Hid; [|done].
  unfold Wrapper.to_uint256 in Hid. case_match; [done|].
  injection Hid as <-.
  destruct (to_bytes32 ah) as [ahb|]; [|done].
  destruct (to_bytes32 rh) as [rhb|]; [|done]. simpl.
  unfold Registry.submitReceipt.
  destruct Hcase as [Ht|Hr].
  - by rewrite decide_True.
  - case_decide; [done|]. by rewrite decide_True.
Qed.

End ExecuteFacts.

Section RehashFacts.
Import Ethers JSON FS Hash Artifacts.



End RehashFacts.

Section RehashProperties.
Import Ethers JSON FS Hash Artifacts.



End RehashProperties.

Section PathFacts.
Import Ethers JSON FS Hash Artifacts.

(** Two task ids with the same directory are the same id. *)
Lemma artifact_path_inj `{Process} (a b : Z) :
  artifact_path a = artifact_path b -> a = b.
Proof.
  unfold artifact_path. intros Heq.
  apply String.app_inj in Heq. apply String.app_inj in Heq.
  by apply (inj pretty) in Heq.
Qed.

(** [processArtifacts] writes into the directory of its task only. *)
Lemma processArtifacts_frame `{Keccak} `{Readdir} `{Greenfield} `{Process}
    (taskId : Z) (results : json) (logs : list string) (createdAt : string)
    (d : Disk) (path : string) :
  path <> artifact_path taskId ->
  (processArtifacts taskId results logs createdAt d).1 !! path = d !! path.
Proof.
  intros Hpath.
  assert (Hcreate : (createArtifactFolder taskId results logs d).1 !! path
                    = d !! path).
  { destruct (metrics_of results) as [metrics|] eqn:Hm.
    - rewrite (createArtifactFolder_ok _ _ _ _ _ Hm). simpl.
      rewrite lookup_insert_ne by done. by rewrite lookup_delete_ne.
    - rewrite (createArtifactFolder_throws _ _ _ _ Hm). simpl.
      rewrite lookup_insert_ne by done. by rewrite lookup_delete_ne. }
  unfold processArtifacts, bind at 1.
  destruct (createArtifactFolder taskId results logs d) as [d1 [p|]] eqn:Hc;
    [|done].
  assert (p = artifact_path taskId) as ->.
  { destruct (createArtifactFolder_Some _ _ _ _ _ _ Hc) as [metrics Hm].
    rewrite (createArtifactFolder_ok _ _ _ _ _ Hm) in Hc. by injection Hc. }
  simpl in Hcreate.
  unfold bind at 1, reading at 1. unfold bind at 1, reading at 1.
  destruct (hashArtifactFolder d1 (artifact_path taskId)) as [ah|]; [|done].
  unfold bind at 1, reading at 1.
  destruct (readFile d1 (artifact_path taskId) "result.json") as [content|];
    [|done].
  unfold bind at 1, reading at 1.
  destruct (keccak256 (Bytes content)) as [rh|]; [|done].
  unfold bind, createReceipt, writing, writeFile.
  destruct (d1 !! artifact_path taskId) as [folder|]; [|done]. simpl.
  destruct (folder !! "receipt.json") as [[?|]|]; simpl; try done.
  - by rewrite lookup_insert_ne.
  - by rewrite lookup_insert_ne.
Qed.

End PathFacts.

Section PathProperties.
Import Ethers JSON FS Hash Artifacts Registry Wrapper Tasks.

(** X14.  Tasks do not share a directory, and the artifacts of one task
    are out of reach of the cycle of another:  [processArtifacts] for a
    task id, whether it returns or throws, leaves the directory of every
    other id as it was. *)
Theorem artifacts_of_tasks_apart `{Keccak} `{Readdir} `{Greenfield} `{Process}
    (a b : Z) (results : json) (logs : list string) (createdAt : string)
    (d : Disk) :
  0 <= a <= MAX_SAFE_INTEGER -> 0 <= b <= MAX_SAFE_INTEGER -> a <> b ->
  artifact_path a <> artifact_path b /\
  (processArtifacts a results logs createdAt d).1 !! artifact_path b
  = d !! artifact_path b.
Proof.
  intros _ _ Hab.
  assert (Hpath : artifact_path b <> artifact_path a)
    by (intros Heq; by apply artifact_path_inj in Heq).
  split; [done|]. by apply processArtifacts_frame.
Qed.

Lemma artifacts_of_tasks_apart_witness :
  (@processArtifacts sample_keccak sample_readdir no_storage sample_process
     1 sample_results [] "2026-01-01T00:00:10.000Z" stale_disk).1
  !! @artifact_path sample_process 0
  = stale_disk !! @artifact_path sample_process 0.
Proof.
  apply (@artifacts_of_tasks_apart sample_keccak sample_readdir no_storage
           sample_process 1 0 sample_results []
           "2026-01-01T00:00:10.000Z" stale_disk); done.
Defined.

End PathProperties.

(* ----------------------------------------------------------------- *)
(** ** The execution route *)

Section SampleFacts.
Import Ethers.

Lemma sample_keccak_length (bs : list byte) :
  length (@keccak256_bytes sample_keccak bs) = 32%nat.
Proof.
  unfold keccak256_bytes, sample_keccak.
  by rewrite length_app, length_replicate.
Qed.

Lemma sample_keccak_nonzero (bs : list byte) :
  @keccak256_bytes sample_keccak bs <> Registry.zero32.
Proof.
  unfold keccak256_bytes, sample_keccak, Registry.zero32. intros Heq.
  apply (f_equal (fun l => l !! 31%nat)) in Heq.
  rewrite lookup_app_r in Heq by (by rewrite length_replicate).
  rewrite length_replicate in Heq. simpl in Heq.
  destruct (Byte.of_N _) as [b|] eqn:E; simpl in Heq; [|done].
  injection Heq as ->. apply Byte.to_of_N in E.
  change (Byte.to_N x00) with 0%N in E.
  by destruct (N.modulo _ _).
Qed.

End SampleFacts.

Section ExecuteProperties.
Import Ethers JSON FS Hash Artifacts Route.

(** X15.  POST /tasks/execute/:taskId goes through whenever the task
    id is a Number that the contract call takes (0 to 2^53 - 1), the
    benchmark results hold the three tests, the digest function gives 32
    bytes, the two digests are not the zero digest, and the ledger holds
    the task and no receipt for it.  The route then answers with the
    hash of the directory as left by [createArtifactFolder], the hash of
    result.json and the address made from the task id; the ledger holds
    a receipt with these two digests, the sender and the block time, and
    its tasks are as they were; and the directory holds the three files
    and a receipt.json that records the hashes and the address of the
    answer. *)
Theorem execute_route_completes
    `{Keccak} `{Readdir} `{!ReaddirSpec} `{Greenfield} `{Process}
    (w : World) (req : Request) (taskId : Z) (results metrics : json) :
  param req = Some taskId -> 0 <= taskId <= Wrapper.MAX_SAFE_INTEGER ->
  benchmark req = Some results -> metrics_of results = Some metrics ->
  (forall bs, length (keccak256_bytes bs) = 32%nat) ->
  artifact_digest (artifact_folder results metrics (logs req))
    <> Registry.zero32 ->
  keccak256_bytes (toUtf8Bytes (stringify results None 2))
    <> Registry.zero32 ->
  Registry.requester (Registry.tasks_at (ledger w) taskId)
    <> Registry.address0 ->
  Registry.operator (Registry.receipts_at (ledger w) taskId)
    = Registry.address0 ->
  exists (w' : World) (ah rh : string),
    ah = hexlify (artifact_digest
                    (artifact_folder results metrics (logs req))) /\
    rh = hexlify (keccak256_bytes
                    (toUtf8Bytes (stringify results None 2))) /\
    execute_route w req = (w', Executed taskId ah rh (greenfield_url taskId))
    /\
    Registry.receipts (ledger w') !! taskId
    = Some (Registry.mkReceipt (Registry.sender (env req))
              (artifact_digest (artifact_folder results metrics (logs req)))
              (keccak256_bytes (toUtf8Bytes (stringify results None 2)))
              (Registry.timestamp (env req))) /\
    Registry.tasks (ledger w') = Registry.tasks (ledger w) /\
    disk w' !! artifact_path taskId
    = Some (<["receipt.json" :=
                File (toUtf8Bytes
                        (stringify
                           (JObj
                              [ ("taskId", JNum (Int taskId));
                                ("artifactHash", JStr ah);
                                ("resultHash", JStr rh);
                                ("artifactUrl", JStr (greenfield_url taskId));
                                ("createdAt", JStr (createdAt req));
                                ("operator", JStr "infraproof-backend") ])
                           None 2))]>
              (artifact_folder results metrics (logs req))).
Proof.
  intros Hparam Hpos Hbench Hm Hlen Hah Hrh Htask Hnone.
  unfold execute_route. rewrite Hparam.
  destruct (taskId <? 0) eqn:E; [apply Z.ltb_lt in E; lia|].
  rewrite Hbench, (processArtifacts_ok _ _ _ _ _ _ Hm). simpl.
  unfold submitReceipt. rewrite to_uint256_Some by done.
  rewrite !to_bytes32_digest by apply Hlen. simpl.
  unfold Registry.submitReceipt.
  rewrite decide_False by done.
  rewrite (decide_False (P := Registry.operator _ <> _)) by (intros ?; done).
  rewrite !decide_False by done.
  eexists _, _, _. split; [reflexivity|]. split; [reflexivity|].
  split; [reflexivity|]. simpl.
  rewrite !lookup_insert_eq. done.
Qed.

Lemma execute_route_completes_witness :
  exists (w' : World) (ah rh url : string),
    @execute_route sample_keccak sample_readdir working_storage sample_process
      sample_world sample_request
    = (w', Executed 0 ah rh url) /\
    Registry.operator (Registry.receipts_at (ledger w') 0) = 2.
Proof.
  destruct (metrics_of sample_results) as [metrics|] eqn:Hm;
    [|by vm_compute in Hm].
  destruct (@execute_route_completes sample_keccak sample_readdir
              sample_readdir_spec working_storage sample_process
              sample_world sample_request 0 sample_results metrics)
    as (w' & ah & rh & _ & _ & Hrun & Hledger & _).
  - reflexivity.
  - split; discriminate.
  - reflexivity.
  - exact Hm.
  - apply sample_keccak_length.
  - apply sample_keccak_nonzero.
  - apply sample_keccak_nonzero.
  - by vm_compute.
  - reflexivity.
  - exists w', ah, rh. eexists. split; [exact Hrun|].
    unfold Registry.receipts_at. by rewrite Hledger.
Defined.

(** X16.  When the ledger does not hold the task, or holds a receipt for
    it already, the route answers with status 500 and the ledger stays
    as it was; but the benchmark has run and the directory of the task
    has been replaced by the files of this run, receipt.json among them. *)
Theorem execute_route_rejected
    `{Keccak} `{Readdir} `{!ReaddirSpec} `{Greenfield} `{Process}
    (w : World) (req : Request) (taskId : Z) (results metrics : json) :
  param req = Some taskId -> 0 <= taskId ->
  benchmark req = Some results -> metrics_of results = Some metrics ->
  Registry.requester (Registry.tasks_at (ledger w) taskId)
    = Registry.address0 \/
  Registry.operator (Registry.receipts_at (ledger w) taskId)
    <> Registry.address0 ->
  exists (d' : Disk) (receipt : list byte),
    execute_route w req = (mkWorld d' (ledger w), ServerError) /\
    d' !! artifact_path taskId
    = Some (<["receipt.json" := File receipt]>
              (artifact_folder results metrics (logs req))) /\
    readFile d' (artifact_path taskId) "result.json"
    = Some (toUtf8Bytes (stringify results None 2)).
Proof.
  intros Hparam Hpos Hbench Hm Hcase.
  unfold execute_route. rewrite Hparam.
  destruct (taskId <? 0) eqn:E; [apply Z.ltb_lt in E; lia|].
  rewrite Hbench, (processArtifacts_ok _ _ _ _ _ _ Hm). simpl.
  rewrite route_submitReceipt_None by done.
  eexists _, _. split; [reflexivity|].
  rewrite lookup_insert_eq. split; [done|].
  unfold readFile, stat. rewrite lookup_insert_eq. simpl.
  rewrite lookup_insert_ne by done.
  unfold artifact_folder. by rewrite lookup_insert_eq.
Qed.

Lemma execute_route_rejected_witness :
  exists d' : Disk,
    @execute_route sample_keccak sample_readdir working_storage sample_process
      (mkWorld ∅ completed_state) sample_request
    = (mkWorld d' completed_state, ServerError) /\
    readFile d' (@artifact_path sample_process 0) "result.json"
    = Some (toUtf8Bytes (stringify sample_results None 2)).
Proof.
  destruct (metrics_of sample_results) as [metrics|] eqn:Hm;
    [|by vm_compute in Hm].
  destruct (@execute_route_rejected sample_keccak sample_readdir
              sample_readdir_spec working_storage sample_process
              (mkWorld ∅ completed_state) sample_request 0 sample_results
              metrics)
    as (d' & receipt & Hrun & _ & Hfile).
  - reflexivity.
  - done.
  - reflexivity.
  - exact Hm.
  - right. by vm_compute.
  - exists d'. split; [exact Hrun|exact Hfile].
Defined.

End ExecuteProperties.

Section SpecFacts.
Import Ethers JSON FS Hash Artifacts Route.

(** Whether the receipt goes through depends on the ledger by two
    things: that the task is there, and that no receipt is. *)
Lemma route_submitReceipt_is_Some (st1 st2 : Registry.State)
    (env : Registry.Env) (taskId : Z) (ah rh : string) :
  (Registry.requester (Registry.tasks_at st1 taskId) = Registry.address0 <->
   Registry.requester (Registry.tasks_at st2 taskId) = Registry.address0) ->
  (Registry.operator (Registry.receipts_at st1 taskId) = Registry.address0 <->
   Registry.operator (Registry.receipts_at st2 taskId) = Registry.address0) ->
  is_Some (submitReceipt st1 env taskId ah rh)
  <-> is_Some (submitReceipt st2 env taskId ah rh).
Proof.
  intros Ht Hr. unfold submitReceipt.
  destruct (Wrapper.to_uint256 taskId) as [id|] eqn:Hid; [|done].
  unfold Wrapper.to_uint256 in Hid. case_match; [done|].
  injection Hid as <-.
  destruct (to_bytes32 ah) as [ahb|]; [|done].
  destruct (to_bytes32 rh) as [rhb|]; [|done]. simpl.
  unfold Registry.submitReceipt.
  repeat case_decide; simpl; try done; split; intros [? ?]; try done;
    exfalso; tauto.
Qed.

End SpecFacts.

Section SpecProperties.
Import Ethers JSON FS Hash Artifacts Route.

(** X17.  POST /tasks/execute/:taskId does not look at the specification
    of the task: on two ledgers that hold the task and no receipt for
    it, whatever spec hash, requester and creation time the task has on
    each, the same request gets the same answer and leaves the same
    files. *)
Theorem execute_route_ignores_spec
    `{Keccak} `{Readdir} `{Greenfield} `{Process}
    (d : Disk) (st1 st2 : Registry.State) (req : Request) (taskId : Z) :
  param req = Some taskId ->
  Registry.requester (Registry.tasks_at st1 taskId) <> Registry.address0 ->
  Registry.requester (Registry.tasks_at st2 taskId) <> Registry.address0 ->
  Registry.operator (Registry.receipts_at st1 taskId) = Registry.address0 ->
  Registry.operator (Registry.receipts_at st2 taskId) = Registry.address0 ->
  (execute_route (mkWorld d st1) req).2 = (execute_route (mkWorld d st2) req).2
  /\
  disk (execute_route (mkWorld d st1) req).1
  = disk (execute_route (mkWorld d st2) req).1.
Proof.
  intros Hparam Ht1 Ht2 Hr1 Hr2. unfold execute_route. rewrite Hparam.
  destruct (taskId <? 0); [done|].
  destruct (benchmark req) as [results|]; [|done]. simpl.
  destruct (processArtifacts taskId results (logs req) (createdAt req) d)
    as [d' [a|]]; [|done].
  pose proof (route_submitReceipt_is_Some st1 st2 (env req) taskId
                (artifactHash a) (resultHash a)) as Hsame.
  destruct (submitReceipt st1 (env req) taskId (artifactHash a) (resultHash a))
    as [l1|];
    destruct (submitReceipt st2 (env req) taskId (artifactHash a)
                (resultHash a)) as [l2|]; simpl; try done.
  - exfalso.
    assert (is_Some (@None Registry.State)) as [? ?]; [|done].
    apply Hsame; [tauto|tauto|eauto].
  - exfalso.
    assert (is_Some (@None Registry.State)) as [? ?]; [|done].
    apply Hsame; [tauto|tauto|eauto].
Qed.

Lemma execute_route_ignores_spec_witness :
  (@execute_route sample_keccak sample_readdir no_storage sample_process
     (mkWorld ∅ sample_state) sample_request).2
  = (@execute_route sample_keccak sample_readdir no_storage sample_process
       (mkWorld ∅ other_state) sample_request).2.
Proof.
  apply (@execute_route_ignores_spec sample_keccak sample_readdir no_storage
           sample_process ∅ sample_state other_state sample_request 0).
  - reflexivity.
  - by vm_compute.
  - by vm_compute.
  - reflexivity.
  - reflexivity.
Defined.

End SpecProperties.

Section CycleFacts.
Import Ethers JSON FS Hash Artifacts Route.

Lemma execute_route_Executed `{Keccak} `{Readdir} `{Greenfield} `{Process}
    (w w' : World) (req : Request) (taskId : Z) (ah rh url : string) :
  execute_route w req = (w', Executed taskId ah rh url) ->
  param req = Some taskId /\ 0 <= taskId /\
  submitReceipt (ledger w) (env req) taskId ah rh = Some (ledger w').
Proof.
  unfold execute_route.
  destruct (param req) as [id|]; [|done].
  destruct (id <? 0) eqn:E; [done|]. apply Z.ltb_ge in E.
  destruct (benchmark req) as [results|]; [|done].
  destruct (processArtifacts id results (logs req) (createdAt req) (disk w))
    as [d' [a|]]; [|done].
  destruct (submitReceipt (ledger w) (env req) id (artifactHash a)
              (resultHash a)) as [ledger'|] eqn:Hsub; [|done].
  by intros [= <- <- <- <- <-].
Qed.

Lemma route_submitReceipt_state (st st' : Registry.State)
    (env : Registry.Env) (taskId : Z) (ah rh : string) :
  submitReceipt st env taskId ah rh = Some st' ->
  exists ahb rhb,
    to_bytes32 ah = Some ahb /\ to_bytes32 rh = Some rhb /\
    Registry.requester (Registry.tasks_at st taskId) <> Registry.address0 /\
    st' = Registry.mkState (Registry.nextTaskId st) (Registry.tasks st)
            (<[taskId := Registry.mkReceipt (Registry.sender env) ahb rhb
                           (Registry.timestamp env)]> (Registry.receipts st)).
Proof.
  unfold submitReceipt.
  destruct (Wrapper.to_uint256 taskId) as [id|] eqn:Hid; [|done].
  unfold Wrapper.to_uint256 in Hid. case_match; [done|].
  injection Hid as <-.
  destruct (to_bytes32 ah) as [ahb|]; [|done].
  destruct (to_bytes32 rh) as [rhb|]; [|done]. simpl.
  unfold Registry.submitReceipt. repeat case_decide; try done.
  intros [= <-]. by exists ahb, rhb.
Qed.

End CycleFacts.

Section CycleProperties.
Import Ethers JSON FS Hash Artifacts Route Registry Wrapper Tasks.

(** X18.  One task from its creation to its status.  When POST
    /tasks/create has answered with a task id and a spec hash, and POST
    /tasks/execute for that id, sent from an account, has answered with
    an artifact hash and a result hash, then GET /tasks/:taskId, for a
    parameter that reads as the id, answers COMPLETED, with a task whose
    spec hash and requester are those of the creation and a receipt
    whose hashes and operator are those of the execution. *)
Theorem created_executed_completed
    `{Keccak} `{Readdir} `{Greenfield} `{Process}
    (st0 st1 : State) (creator : Env) (t : TaskSpec) (taskId : Z)
    (specHash : string) (d : Disk) (req : Request) (w2 : World)
    (ah rh url param : string) :
  0 <= nextTaskId st0 < 2 ^ 53 ->
  create_route st0 creator t = (st1, CreateOk taskId specHash t) ->
  Route.param req = Some taskId ->
  valid_sender (sender (env req)) ->
  execute_route (mkWorld d st1) req = (w2, Executed taskId ah rh url) ->
  parseInt param = Some taskId ->
  exists (task : Task) (receipt : Receipt),
    task_route (ledger w2) param
    = TaskStatus taskId task Client.COMPLETED (Some receipt) /\
    to_bytes32 specHash = Some (Registry.specHash task) /\
    requester task = sender creator /\
    to_bytes32 ah = Some (Registry.artifactHash receipt) /\
    to_bytes32 rh = Some (Registry.resultHash receipt) /\
    operator receipt = sender (env req).
Proof.
  intros Hnext Hcreate Hparam Hsender Hexec Hparse.
  unfold create_route in Hcreate.
  destruct (hashJSON (taskSpec_object t)) as [hex|]; [|done].
  destruct (Wrapper.createTask st0 creator hex) as [st' [id|]] eqn:Hw;
    [|done].
  injection Hcreate as -> <- ->.
  unfold Wrapper.createTask in Hw.
  destruct (to_bytes32 specHash) as [h|] eqn:Hh; [|discriminate Hw].
  unfold Registry.createTask in Hw.
  repeat case_decide; try discriminate Hw.
  cbn [find_TaskCreated] in Hw. injection Hw as <- <-.
  rewrite round_double_small in * by lia.
  apply execute_route_Executed in Hexec as (_ & _ & Hsub).
  cbn [ledger] in Hsub.
  apply route_submitReceipt_state in Hsub
    as (ahb & rhb & Hahb & Hrhb & Hreq & ->).
  unfold tasks_at in Hreq. cbn [tasks] in Hreq.
  rewrite lookup_insert_eq in Hreq. cbn [default requester] in Hreq.
  unfold task_route. rewrite Hparse.
  destruct (nextTaskId st0 <? 0) eqn:E; [apply Z.ltb_lt in E; lia|].
  unfold getTask, getReceipt, to_uint256. rewrite E.
  destruct (MAX_SAFE_INTEGER <? nextTaskId st0) eqn:E2;
    [apply Z.ltb_lt in E2; unfold MAX_SAFE_INTEGER in E2; lia|].
  cbn [orb mbind option_bind ledger]. unfold tasks_at, receipts_at.
  cbn [tasks receipts].
  rewrite !lookup_insert_eq.
  unfold default, from_option, id in *.
  cbn [requester Registry.specHash createdAt operator
       Registry.artifactHash Registry.resultHash completedAt] in *.
  rewrite decide_False by done.
  rewrite decide_False by (by apply valid_sender_nonzero).
  eexists _, _. split; [reflexivity|].
  cbn [requester Registry.specHash operator Registry.artifactHash
       Registry.resultHash].
  done.
Qed.

Lemma created_executed_completed_witness :
  exists (w2 : World) (task : Task) (receipt : Receipt),
    task_route (ledger w2) "0"
    = TaskStatus 0 task Client.COMPLETED (Some receipt) /\
    requester task = 1 /\ operator receipt = 2.
Proof.
  pose (created := @create_route sample_keccak init sample_env spec_100MB).
  assert (Hcreated : exists specHash,
             created = (created.1, CreateOk 0 specHash spec_100MB)).
  { vm_compute. eexists. reflexivity. }
  destruct Hcreated as (specHash & Hcreated).
  pose (executed := @execute_route sample_keccak sample_readdir no_storage
                      sample_process (mkWorld ∅ created.1) sample_request).
  assert (Hexecuted : exists ah rh url,
             executed = (executed.1, Executed 0 ah rh url)).
  { vm_compute. do 3 eexists. reflexivity. }
  destruct Hexecuted as (ah & rh & url & Hexecuted).
  destruct (@created_executed_completed sample_keccak sample_readdir
              no_storage sample_process init created.1 sample_env spec_100MB
              0 specHash ∅ sample_request executed.1 ah rh url "0")
    as (task & receipt & Hroute & _ & Hrequester & _ & _ & Hoperator).
  - split; by vm_compute.
  - exact Hcreated.
  - reflexivity.
  - split; by vm_compute.
  - exact Hexecuted.
  - reflexivity.
  - exists executed.1, task, receipt.
    split; [exact Hroute|]. split; [exact Hrequester|exact Hoperator].
Defined.

End CycleProperties.

(* ----------------------------------------------------------------- *)
(** ** The benchmark: budget, range and disk *)

Section BenchmarkFacts.
Import Benchmark.

(** The turns of the loop of [cpuTest] read the clock in order: when
    the readings do not go back, those left after the loop are at least
    the budget past the start. *)
Lemma cpu_loop_exit (n : nat) :
  forall (clock : list Z) (d start : Z) (s s' : CpuLoop) (rest : list Z),
    (length clock <= n)%nat -> StronglySorted Z.le clock ->
    cpu_loop d start clock s = Some (s', rest) ->
    Forall (fun t => d <= t - start) rest.
Proof.
  induction n as [|n IH]; intros clock d start s s' rest Hlen Hs Hrun.
  - destruct clock; [done|simpl in Hlen; lia].
  - destruct clock as [|t clock1]; [done|]. simpl in Hrun.
    apply StronglySorted_inv in Hs as [Hs1 Ht].
    destruct (t - start <? d) eqn:E.
    + destruct (isPrime (num s)) as [p|]; [|done].
      destruct clock1 as [|now clock2]; [done|].
      apply StronglySorted_inv in Hs1 as [Hs2 _].
      apply IH in Hrun; [done|simpl in Hlen; lia|done].
    + apply Z.ltb_ge in E. injection Hrun as <- <-.
      eapply Forall_impl; [exact Ht|]. simpl. intros x Hx. lia.
Qed.

End BenchmarkFacts.

Section BenchmarkProperties.
Import Benchmark.

(** X19.  [memoryTest] throws the RangeError of [new Array] for a
    negative size and for 32768 megabytes or more (2^32 numbers or
    more). *)
Theorem memoryTest_RangeError (sizeMB : Z) :
  sizeMB < 0 \/ 32768 <= sizeMB -> memoryTest sizeMB = None.
Proof.
  intros Hsize. unfold memoryTest, num_mul, MAX_ARRAY_LENGTH.
  set (y := round_double (sizeMB * 1024)).
  set (z := round_double (y * 1024)).
  assert (Hz : z < 0 \/ 2 ^ 35 <= z).
  { destruct Hsize as [Hneg|Hbig].
    - left. destruct (decide (- 2 ^ 53 < sizeMB * 1024)) as [Hs|Hl].
      + assert (Hy : y = sizeMB * 1024)
          by (apply round_double_small; lia).
        destruct (decide (- 2 ^ 53 < y * 1024)) as [Hs2|Hl2].
        * unfold z. rewrite round_double_small by lia. lia.
        * pose proof (round_double_small_neg (y * 1024) ltac:(lia)).
          unfold z. lia.
      + pose proof (round_double_small_neg (sizeMB * 1024) ltac:(lia)) as Hy.
        fold y in Hy.
        pose proof (round_double_small_neg (y * 1024) ltac:(lia)).
        unfold z. lia.
    - right. destruct (decide (sizeMB * 1024 < 2 ^ 53)) as [Hs|Hl].
      + assert (Hy : y = sizeMB * 1024)
          by (apply round_double_small; lia).
        destruct (decide (y * 1024 < 2 ^ 53)) as [Hs2|Hl2].
        * unfold z. rewrite round_double_small by lia. lia.
        * pose proof (round_double_large (y * 1024) ltac:(lia)).
          unfold z. lia.
      + pose proof (round_double_large (sizeMB * 1024) ltac:(lia)) as Hy.
        fold y in Hy.
        pose proof (round_double_large (y * 1024) ltac:(lia)).
        unfold z. lia. }
  destruct (z / 8 <? 0) eqn:E1; [done|]. apply Z.ltb_ge in E1.
  destruct (2 ^ 32 - 1 <? z / 8) eqn:E2; [done|]. apply Z.ltb_ge in E2.
  exfalso. destruct Hz as [Hz|Hz].
  - pose proof (Z.div_lt_upper_bound z 8 0 ltac:(lia) ltac:(lia)). lia.
  - pose proof (Z.div_le_lower_bound z 8 (2 ^ 32) ltac:(lia) ltac:(lia)).
    lia.
Qed.

Lemma memoryTest_RangeError_witness :
  memoryTest 32768 = None /\ memoryTest (-1) = None.
Proof.
  split; apply memoryTest_RangeError; [right|left]; done.
Defined.

(** X20.  When the readings of the clock do not go back, [cpuTest]
    returns only when the budget is used up: the duration it reports is
    at least the duration asked for.  With no budget (a duration of 0 or
    less) it tests no number at all. *)
Theorem cpuTest_uses_budget (d : Z) (clock rest : list Z) (r : CpuResult) :
  Sorted Z.le clock ->
  cpuTest d clock = Some (r, rest) ->
  d <= durationMs r /\
  (d <= 0 -> iterations r = 0 /\ primesFound r = 0).
Proof.
  intros Hs. apply Sorted_StronglySorted in Hs; [|intros x y z; lia].
  unfold cpuTest. destruct clock as [|start clock1]; [done|].
  apply StronglySorted_inv in Hs as [Hs1 Hstart].
  destruct (cpu_loop d start clock1 (mkCpuLoop 2 0 0 start))
    as [[s [|t_end rest']]|] eqn:Hrun; try done.
  intros [= <- <-]. simpl. split.
  - apply (cpu_loop_exit (length clock1)) in Hrun; [|done..].
    apply Forall_cons in Hrun as [Hend _]. done.
  - intros Hd. destruct clock1 as [|t clock2]; [done|]. simpl in Hrun.
    apply Forall_cons in Hstart as [Ht _].
    destruct (t - start <? d) eqn:E; [apply Z.ltb_lt in E; lia|].
    by injection Hrun as <- _.
Qed.

Lemma cpuTest_uses_budget_witness :
  5000 <= durationMs (mkCpuResult 9 4 5000).
Proof.
  refine (proj1 (cpuTest_uses_budget 5000
                   (1000 :: steady_clock 9 1000 [6000; 6000]) []
                   (mkCpuResult 9 4 5000) _ _)).
  - repeat constructor; by vm_compute.
  - reflexivity.
Defined.

End BenchmarkProperties.

Section DiskFacts.
Import FS Artifacts Suite.




End DiskFacts.

Section DiskProperties.
Import FS Artifacts Suite.







End DiskProperties.
